(** * umodbus/functions.py: the Modbus PDU codec

    A shallow embedding of [src/umodbus/functions.py] and the properties
    of its request encoders, response encoder, response validator and
    exception encoder.

    Python integers are [Z].  A [bytes] object is a list of integers, each
    in [0, 255] (see [pack_bytes_in_range]).  A raised exception is
    the [Raise] result of a small error monad.  The [struct] module is
    modelled as CPython implements it: every packed integer is checked
    against the range of its format code, and a value outside it, a wrong
    number of arguments, or a buffer of the wrong size raises
    [struct.error]. *)

From Stdlib Require Import ZArith List String Ascii Bool Lia ZifyNat.
From Stdlib Require Import SpecFloat.
Import ListNotations.
Open Scope string_scope.
Open Scope list_scope.
Open Scope Z_scope.

(** ** Exceptions and results *)

(** The exceptions the module can raise.  [ValueError] carries the message
    of the [raise] statement; [StructError] is [struct.error];
    [TypeError] is what [len(None)] raises. *)
Inductive exn : Type :=
| ValueError (msg : string)
| StructError
| TypeError.

Inductive result (A : Type) : Type :=
| Ok (a : A)
| Raise (e : exn).
Arguments Ok {A} a.
Arguments Raise {A} e.

Definition bind {A B : Type} (r : result A) (k : A -> result B) : result B :=
  match r with
  | Ok a => k a
  | Raise e => Raise e
  end.

Notation "x <- r ;; k" := (bind r (fun x => k))
  (at level 61, r at next level, right associativity).

Definition bytes := list Z.

Definition is_byte (b : Z) : Prop := 0 <= b < 256.

(** The two error kinds of the specification are both [ValueError] in the
    code; they differ by the message. *)
Definition InvalidQuantity (e : exn) : Prop :=
  exists msg, e = ValueError msg /\
    In msg ["Invalid number of coils"; "Invalid number of discrete inputs";
            "Invalid number of holding registers";
            "Invalid number of input registers";
            "Invalid quantity of outputs"; "Invalid number of registers";
            "invalid number of registers"].

Definition IllegalValue (e : exn) : Prop := e = ValueError "Illegal coil value".

(** ** Python list helpers *)

(** [range(start, stop, step)] for a positive step; [stop] iterations are
    always enough. *)
Fixpoint range_aux (fuel i stop step : nat) : list nat :=
  match fuel with
  | O => []
  | S fuel' => if Nat.ltb i stop then i :: range_aux fuel' (i + step) stop step
               else []
  end.

Definition range (start stop step : nat) : list nat :=
  range_aux stop start stop step.

(** [l[i:j]] for [0 <= i <= j]. *)
Definition slice {A : Type} (l : list A) (i j : nat) : list A :=
  firstn (j - i) (skipn i l).

(** [s * n] on strings. *)
Fixpoint str_mul (s : string) (n : nat) : string :=
  match n with
  | O => ""
  | S n' => String.append s (str_mul s n')
  end.

Definition len {A : Type} (l : list A) : Z := Z.of_nat (List.length l).

(** ** Constants *)

Module Const.
(** Modelled from the spec: [umodbus/const.py] is not among the sources;
    the function codes and the error bias are those of the data model
    (FunctionCode and ErrorBias). *)
Definition READ_COILS : Z := 1.
Definition READ_DISCRETE_INPUTS : Z := 2.
Definition READ_HOLDING_REGISTERS : Z := 3.
Definition READ_INPUT_REGISTER : Z := 4.
Definition WRITE_SINGLE_COIL : Z := 5.
Definition WRITE_SINGLE_REGISTER : Z := 6.
Definition WRITE_MULTIPLE_COILS : Z := 15.
Definition WRITE_MULTIPLE_REGISTERS : Z := 16.
Definition ERROR_BIAS : Z := 0x80.
End Const.

(** ** The [struct] module *)

Module struct.

(** The integer format codes the module uses (['f'] is modelled apart,
    by [pack_f] and [unpack_f]). *)
Inductive code : Type := B | H | h | I.

Definition code_of_ascii (c : ascii) : option code :=
  if Ascii.eqb c "B" then Some B
  else if Ascii.eqb c "H" then Some H
  else if Ascii.eqb c "h" then Some h
  else if Ascii.eqb c "I" then Some I
  else None.

Fixpoint parse_codes (s : string) : option (list code) :=
  match s with
  | EmptyString => Some []
  | String c rest =>
      match code_of_ascii c, parse_codes rest with
      | Some k, Some ks => Some (k :: ks)
      | _, _ => None
      end
  end.

(** Every format of the module starts with the big-endian marker ['>']
    (or its synonym ['!']). *)
Definition parse (fmt : string) : option (list code) :=
  match fmt with
  | String c rest =>
      if Ascii.eqb c ">" || Ascii.eqb c "!" then parse_codes rest else None
  | EmptyString => None
  end.

Definition size (c : code) : nat :=
  match c with B => 1 | H => 2 | h => 2 | I => 4 end%nat.

Definition is_signed (c : code) : bool :=
  match c with h => true | _ => false end.

Definition lo (c : code) : Z :=
  match c with h => -32768 | _ => 0 end.

Definition hi (c : code) : Z :=
  match c with B => 255 | H => 65535 | h => 32767 | I => 4294967295 end.

(** The [n] low bytes of [v], most significant first (two's complement
    for a negative [v]). *)
Fixpoint be_bytes (n : nat) (v : Z) : bytes :=
  match n with
  | O => []
  | S k => (v / 256 ^ Z.of_nat k) mod 256 :: be_bytes k v
  end.

Definition pack_one (c : code) (v : Z) : result bytes :=
  if (lo c <=? v) && (v <=? hi c) then Ok (be_bytes (size c) v)
  else Raise StructError.

Fixpoint pack_all (cs : list code) (args : list Z) : result bytes :=
  match cs, args with
  | [], [] => Ok []
  | c :: cs', v :: args' =>
      b <- pack_one c v ;;
      r <- pack_all cs' args' ;;
      Ok (b ++ r)
  | _, _ => Raise StructError
  end.

Definition pack (fmt : string) (args : list Z) : result bytes :=
  match parse fmt with
  | Some cs => pack_all cs args
  | None => Raise StructError
  end.

Definition calcsize (cs : list code) : nat :=
  fold_right (fun c n => (size c + n)%nat) O cs.

(** A big-endian unsigned integer. *)
Definition be_int (bs : bytes) : Z :=
  fold_left (fun acc b => acc * 256 + b) bs 0.

Definition decode (c : code) (bs : bytes) : Z :=
  let u := be_int bs in
  if is_signed c && (2 ^ (8 * Z.of_nat (size c) - 1) <=? u)
  then u - 2 ^ (8 * Z.of_nat (size c))
  else u.

Fixpoint unpack_all (cs : list code) (data : bytes) : list Z :=
  match cs with
  | [] => []
  | c :: cs' =>
      decode c (firstn (size c) data) :: unpack_all cs' (skipn (size c) data)
  end.

Definition unpack (fmt : string) (data : bytes) : result (list Z) :=
  match parse fmt with
  | Some cs =>
      if Nat.eqb (List.length data) (calcsize cs) then Ok (unpack_all cs data)
      else Raise StructError
  | None => Raise StructError
  end.

End struct.

(** ** Request encoders *)

Definition read_coils (starting_address quantity : Z) : result bytes :=
  if negb ((1 <=? quantity) && (quantity <=? 2000))
  then Raise (ValueError "Invalid number of coils")
  else struct.pack ">BHH" [Const.READ_COILS; starting_address; quantity].

Definition read_discrete_inputs (starting_address quantity : Z) : result bytes :=
  if negb ((1 <=? quantity) && (quantity <=? 2000))
  then Raise (ValueError "Invalid number of discrete inputs")
  else struct.pack ">BHH"
         [Const.READ_DISCRETE_INPUTS; starting_address; quantity].

Definition read_holding_registers (starting_address quantity : Z) : result bytes :=
  if negb ((1 <=? quantity) && (quantity <=? 125))
  then Raise (ValueError "Invalid number of holding registers")
  else struct.pack ">BHH"
         [Const.READ_HOLDING_REGISTERS; starting_address; quantity].

Definition read_input_registers (starting_address quantity : Z) : result bytes :=
  if negb ((1 <=? quantity) && (quantity <=? 125))
  then Raise (ValueError "Invalid number of input registers")
  else struct.pack ">BHH"
         [Const.READ_INPUT_REGISTER; starting_address; quantity].

(** A value that is an [int] or a [bool] ([Union[int, bool]]).  [bool] is
    a subclass of [int]: [True == 1] and [False == 0]. *)
Inductive pyval : Type :=
| PInt (z : Z)
| PBool (b : bool).

Definition as_int (v : pyval) : Z :=
  match v with
  | PInt z => z
  | PBool true => 1
  | PBool false => 0
  end.

(** [v == w] on ints and bools. *)
Definition py_eq (v w : pyval) : bool := as_int v =? as_int w.

(** [v in l]. *)
Definition py_in (v : pyval) (l : list pyval) : bool := existsb (py_eq v) l.

(** The truth value of [v]. *)
Definition truthy (v : pyval) : bool := negb (as_int v =? 0).

Definition write_single_coil (output_address : Z) (output_value : pyval)
  : result bytes :=
  if negb (py_in output_value [PInt 0x0000; PInt 0xFF00; PBool true])
  then Raise (ValueError "Illegal coil value")
  else
    let output_value :=
      if negb (py_in output_value [PInt 0x0000; PInt 0xFF00])
      then (if truthy output_value then PInt 0xFF00 else PInt 0x0000)
      else output_value in
    struct.pack ">BHH"
      [Const.WRITE_SINGLE_COIL; output_address; as_int output_value].

Definition write_single_register (register_address register_value : Z)
  (signed : bool) : result bytes :=
  let fmt := if signed then "h" else "H" in
  struct.pack (String.append ">BH" fmt)
    [Const.WRITE_SINGLE_REGISTER; register_address; register_value].

(** ** Bit packing *)

(** [[value_list[i:i + 8] for i in range(0, len(value_list), 8)]] *)
Definition sectioned_list (value_list : list Z) : list (list Z) :=
  map (fun i => slice value_list i (i + 8))
      (range 0 (List.length value_list) 8).

(** The inner loop: [output = 0; for bit in byte: output = (output << 1) | bit]. *)
Definition fold_bits (byte : list Z) : Z :=
  fold_left (fun output bit => Z.lor (Z.shiftl output 1) bit) byte 0.

(** The packing loop, which [write_multiple_coils] and the read-coil branch
    of [response] both contain verbatim; it yields [output_value]. *)
Definition pack_coil_bits (value_list : list Z) : list Z :=
  map fold_bits (sectioned_list value_list).

Definition write_multiple_coils (starting_address : Z) (value_list : list Z)
  : result bytes :=
  if negb ((1 <=? len value_list) && (len value_list <=? 0x07B0))
  then Raise (ValueError "Invalid quantity of outputs")
  else
    let output_value := pack_coil_bits value_list in
    let fmt := str_mul "B" (List.length output_value) in
    struct.pack (String.append ">BHHB" fmt)
      ([Const.WRITE_MULTIPLE_COILS; starting_address; len value_list;
        ((len value_list - 1) / 8) + 1] ++ output_value).

Definition write_multiple_registers (starting_address : Z)
  (register_values : list Z) (signed : bool) : result bytes :=
  let quantity := len register_values in
  if negb ((1 <=? quantity) && (quantity <=? 123))
  then Raise (ValueError "Invalid number of registers")
  else
    let fmt := str_mul (if signed then "h" else "H")
                       (List.length register_values) in
    struct.pack (String.append ">BHHB" fmt)
      ([Const.WRITE_MULTIPLE_REGISTERS; starting_address; quantity;
        quantity * 2] ++ register_values).

(** ** Response validation *)

(** [x in l] on integers. *)
Definition mem (x : Z) (l : list Z) : bool := existsb (Z.eqb x) l.

(** [expected == resp] where [expected] defaults to [None]. *)
Definition opt_eq (expected : option Z) (resp : Z) : bool :=
  match expected with
  | Some v => v =? resp
  | None => false
  end.

(** The docstring of the function: [:returns: True if valid, False
    otherwise], [:rtype: bool]. *)
Definition validate_resp_data (data : bytes) (function_code address : Z)
  (value quantity : option Z) (signed : bool) : result bool :=
  let fmt := String.append ">H" (if signed then "h" else "H") in
  if mem function_code [Const.WRITE_SINGLE_COIL; Const.WRITE_SINGLE_REGISTER]
  then
    r <- struct.unpack fmt data ;;
    match r with
    | [resp_addr; resp_value] =>
        if (address =? resp_addr) && opt_eq value resp_value
        then Ok true else Ok false
    | _ => Raise (ValueError "not enough values to unpack")
    end
  else if mem function_code
            [Const.WRITE_MULTIPLE_COILS; Const.WRITE_MULTIPLE_REGISTERS]
  then
    r <- struct.unpack fmt data ;;
    match r with
    | [resp_addr; resp_qty] =>
        if (address =? resp_addr) && opt_eq quantity resp_qty
        then Ok true else Ok false
    | _ => Raise (ValueError "not enough values to unpack")
    end
  else Ok false.

(** ** Response encoder *)

(** The [signed] argument of [response]: one flag for every value
    ([signed is True or signed is False]) or one flag per value. *)
Inductive signed_arg : Type :=
| Uniform (b : bool)
| PerElement (flags : list bool).

(** [len(value_list)], where [value_list] defaults to [None]. *)
Definition len_opt (value_list : option (list Z)) : result (list Z) :=
  match value_list with
  | Some l => Ok l
  | None => Raise TypeError
  end.

(** [response] returns [bytes], or [None] when no branch is taken. *)
Definition response (function_code request_register_addr request_register_qty : Z)
  (request_data : list Z) (value_list : option (list Z)) (signed : signed_arg)
  : result (option bytes) :=
  if mem function_code [Const.READ_COILS; Const.READ_DISCRETE_INPUTS] then
    value_list <- len_opt value_list ;;
    let output_value := pack_coil_bits value_list in
    let fmt := str_mul "B" (List.length output_value) in
    pdu <- struct.pack (String.append ">BB" fmt)
             ([function_code; ((len value_list - 1) / 8) + 1] ++ output_value) ;;
    Ok (Some pdu)
  else if mem function_code
            [Const.READ_HOLDING_REGISTERS; Const.READ_INPUT_REGISTER] then
    value_list <- len_opt value_list ;;
    let quantity := len value_list in
    if negb ((0x0001 <=? quantity) && (quantity <=? 0x007D))
    then Raise (ValueError "invalid number of registers")
    else
      let fmt :=
        match signed with
        | Uniform s => str_mul (if s then "h" else "H") (List.length value_list)
        | PerElement flags =>
            fold_left (fun fmt (s : bool) =>
                         String.append fmt (if s then "h" else "H")) flags ""
        end in
      pdu <- struct.pack (String.append ">BB" fmt)
               ([function_code; quantity * 2] ++ value_list) ;;
      Ok (Some pdu)
  else if mem function_code
            [Const.WRITE_SINGLE_COIL; Const.WRITE_SINGLE_REGISTER] then
    pdu <- struct.pack ">BHBB"
             ([function_code; request_register_addr] ++ request_data) ;;
    Ok (Some pdu)
  else if mem function_code
            [Const.WRITE_MULTIPLE_COILS; Const.WRITE_MULTIPLE_REGISTERS] then
    pdu <- struct.pack ">BHH"
             [function_code; request_register_addr; request_register_qty] ;;
    Ok (Some pdu)
  else Ok None.

(** ** Exception encoder *)

Definition exception_response (function_code exception_code : Z) : result bytes :=
  struct.pack ">BB" [Const.ERROR_BIAS + function_code; exception_code].

(** ** Numeric conversions: the bit-string stage

    [float_to_bin] and [bin_to_float] go through [struct]'s ['f'] code,
    which reinterprets the bits of an IEEE-754 single and is modelled
    further down.  What follows is the stage between the unsigned 32-bit
    integer and the string of binary digits. *)

Fixpoint bin_pos (p : positive) (acc : string) : string :=
  match p with
  | xH => String "1" acc
  | xO q => bin_pos q (String "0" acc)
  | xI q => bin_pos q (String "1" acc)
  end.

(** ["{0:b}".format(num)] *)
Definition int_to_bin (num : Z) : string :=
  match num with
  | Z0 => "0"
  | Zpos p => bin_pos p ""
  | Zneg p => String "-" (bin_pos p "")
  end.

(** [s.zfill(width)] on a string without a sign. *)
Definition zfill (width : nat) (s : string) : string :=
  String.append (str_mul "0" (width - String.length s)) s.

(** [bin(n)[2:].zfill(32)] on the unsigned [n] that
    [struct.unpack('!I', ...)] returns. *)
Definition u32_to_bin (n : Z) : string := zfill 32 (int_to_bin n).

(** [int(binary, 2)] on a non-empty string of binary digits, which is what
    [float_to_bin] produces.  Python's [int] also accepts a sign, a [0b]
    prefix, underscores and surrounding white space; such strings are
    outside this model. *)
Fixpoint int_base2 (s : string) (acc : Z) : option Z :=
  match s with
  | EmptyString => Some acc
  | String c rest =>
      if Ascii.eqb c "0" then int_base2 rest (2 * acc)
      else if Ascii.eqb c "1" then int_base2 rest (2 * acc + 1)
      else None
  end.

(** [struct.pack('!I', int(binary, 2))] *)
Definition bin_to_u32 (binary : string) : result bytes :=
  match binary with
  | EmptyString => Raise (ValueError "invalid literal for int() with base 2")
  | _ =>
      match int_base2 binary 0 with
      | Some n => struct.pack "!I" [n]
      | None => Raise (ValueError "invalid literal for int() with base 2")
      end
  end.

(** ** Numeric conversions: [struct]'s ['f'] code

    A Python float whose value a 32-bit IEEE-754 float can hold is
    modelled by that binary32 datum, a [spec_float] that is valid for
    precision 24 and maximal exponent 128: on such a float the conversion
    to a C float in [struct.pack('!f', ...)] and the conversion back to a
    double in [struct.unpack('!f', ...)] are exact.  [S754_nan] stands for
    [float('nan')]. *)

Definition is_binary32 (x : spec_float) : Prop := valid_binary 24 128 x = true.

Definition is_nan (x : spec_float) : bool :=
  match x with
  | S754_nan => true
  | _ => false
  end.

(** The 32 bits of a binary32 datum: sign (1 bit), biased exponent (8 bits),
    fraction (23 bits).  A finite [m * 2^e] with [m < 2^23] is subnormal
    (exponent field 0); otherwise the exponent field is [e + 150] and the
    leading bit of [m] is implicit.  NaN is the quiet NaN [7FC00000]. *)
Definition bits_of_float32 (x : spec_float) : Z :=
  let sign (s : bool) := if s then 2 ^ 31 else 0 in
  match x with
  | S754_zero s => sign s
  | S754_infinity s => sign s + 255 * 2 ^ 23
  | S754_nan => 255 * 2 ^ 23 + 2 ^ 22
  | S754_finite s m e =>
      if Z.pos m <? 2 ^ 23 then sign s + Z.pos m
      else sign s + (e + 150) * 2 ^ 23 + (Z.pos m - 2 ^ 23)
  end.

Definition float32_of_bits (n : Z) : spec_float :=
  let s := 2 ^ 31 <=? n in
  let exponent := (n / 2 ^ 23) mod 256 in
  let fraction := n mod 2 ^ 23 in
  if exponent =? 0 then
    if fraction =? 0 then S754_zero s
    else S754_finite s (Z.to_pos fraction) (-149)
  else if exponent =? 255 then
    if fraction =? 0 then S754_infinity s else S754_nan
  else S754_finite s (Z.to_pos (2 ^ 23 + fraction)) (exponent - 150).

(** [struct.pack('!f', num)] *)
Definition pack_f (num : spec_float) : result bytes :=
  Ok (struct.be_bytes 4 (bits_of_float32 num)).

(** [struct.unpack('!f', data)[0]] *)
Definition unpack_f (data : bytes) : result spec_float :=
  if Nat.eqb (List.length data) 4 then Ok (float32_of_bits (struct.be_int data))
  else Raise StructError.

(** [bin(struct.unpack('!I', struct.pack('!f', num))[0])[2:].zfill(32)] *)
Definition float_to_bin (num : spec_float) : result string :=
  packed <- pack_f num ;;
  r <- struct.unpack "!I" packed ;;
  Ok (u32_to_bin (nth 0 r 0)).

(** [struct.unpack('!f', struct.pack('!I', int(binary, 2)))[0]] *)
Definition bin_to_float (binary : string) : result spec_float :=
  packed <- bin_to_u32 binary ;;
  unpack_f packed.

(** [x == y] on floats. *)
Definition float_eq (x y : spec_float) : bool := SFeqb x y.

Fixpoint is_binary_string (s : string) : bool :=
  match s with
  | EmptyString => true
  | String c rest =>
      (Ascii.eqb c "0" || Ascii.eqb c "1") && is_binary_string rest
  end.

(** ** Vocabulary of the statements *)

Definition is_u16 (v : Z) : Prop := 0 <= v < 65536.

(** A register value fits the 16-bit format selected by the flag. *)
Definition fits16 (signed : bool) (v : Z) : Prop :=
  if signed then -32768 <= v <= 32767 else 0 <= v <= 65535.

Definition is_bit (v : Z) : Prop := v = 0 \/ v = 1.

Inductive read_op : Type :=
| ReadCoils | ReadDiscreteInputs | ReadHoldingRegisters | ReadInputRegisters.

Definition read_request (op : read_op) : Z -> Z -> result bytes :=
  match op with
  | ReadCoils => read_coils
  | ReadDiscreteInputs => read_discrete_inputs
  | ReadHoldingRegisters => read_holding_registers
  | ReadInputRegisters => read_input_registers
  end.

(** The function code and the largest quantity the specification's table
    gives each read operation. *)
Definition read_code (op : read_op) : Z :=
  match op with
  | ReadCoils => 1 | ReadDiscreteInputs => 2
  | ReadHoldingRegisters => 3 | ReadInputRegisters => 4
  end.

Definition read_max (op : read_op) : Z :=
  match op with
  | ReadCoils | ReadDiscreteInputs => 2000
  | ReadHoldingRegisters | ReadInputRegisters => 125
  end.

Definition known_function_codes : list Z := [1; 2; 3; 4; 5; 6; 15; 16].

Definition illegal_coil_value : exn := ValueError "Illegal coil value".

Definition write_codes : list Z := [5; 6; 15; 16].

(** The address and the field of a 4-byte acknowledgement, big-endian. *)
Definition resp_address (b0 b1 : Z) : Z := 256 * b0 + b1.

Definition resp_field (signed : bool) (b2 b3 : Z) : Z :=
  let u := 256 * b2 + b3 in
  if signed && (32768 <=? u) then u - 65536 else u.

Definition validate_fmt (signed : bool) : string :=
  String.append ">H" (if signed then "h" else "H").

Definition code16 (signed : bool) : struct.code :=
  if signed then struct.h else struct.H.

(** The two bytes of a 16-bit value, most significant first; a negative
    value is in two's complement. *)
Definition be16 (v : Z) : bytes := [(v / 256) mod 256; v mod 256].

(** The packing in the specification's words: each group is padded with
    zeros on the right to 8 bits before it is folded, so that its first
    bit is the most significant bit of the byte. *)
Definition pack_coil_bits_padded (value_list : list Z) : list Z :=
  map (fun group => fold_bits (group ++ repeat 0 (8 - List.length group)))
      (sectioned_list value_list).

(** One call of a request encoder. *)
Inductive request : Type :=
| ReadReq (op : read_op) (address quantity : Z)
| WriteSingleCoilReq (address : Z) (value : pyval)
| WriteSingleRegisterReq (address value : Z) (signed : bool)
| WriteMultipleCoilsReq (address : Z) (values : list Z)
| WriteMultipleRegistersReq (address : Z) (values : list Z) (signed : bool).

Definition encode (r : request) : result bytes :=
  match r with
  | ReadReq op a q => read_request op a q
  | WriteSingleCoilReq a v => write_single_coil a v
  | WriteSingleRegisterReq a v s => write_single_register a v s
  | WriteMultipleCoilsReq a vs => write_multiple_coils a vs
  | WriteMultipleRegistersReq a vs s => write_multiple_registers a vs s
  end.

(** The arguments fit their wire fields: a 16-bit address, register values
    in the 16-bit range of the flag, coil values 0 or 1. *)
Definition fits_wire (r : request) : Prop :=
  match r with
  | ReadReq _ a _ => is_u16 a
  | WriteSingleCoilReq a _ => is_u16 a
  | WriteSingleRegisterReq a v s => is_u16 a /\ fits16 s v
  | WriteMultipleCoilsReq a vs => is_u16 a /\ Forall is_bit vs
  | WriteMultipleRegistersReq a vs s => is_u16 a /\ Forall (fits16 s) vs
  end.

Definition pdu_or_spec_error (r : result bytes) : Prop :=
  (exists pdu, r = Ok pdu) \/
  (exists e, r = Raise e /\ (InvalidQuantity e \/ IllegalValue e)).

(** The function code and the PDU length of a request. *)
Definition request_code (r : request) : Z :=
  match r with
  | ReadReq op _ _ => read_code op
  | WriteSingleCoilReq _ _ => 5
  | WriteSingleRegisterReq _ _ _ => 6
  | WriteMultipleCoilsReq _ _ => 15
  | WriteMultipleRegistersReq _ _ _ => 16
  end.

Definition request_length (r : request) : nat :=
  match r with
  | ReadReq _ _ _ | WriteSingleCoilReq _ _ | WriteSingleRegisterReq _ _ _ => 5
  | WriteMultipleCoilsReq _ vs => 6 + (List.length vs + 7) / 8
  | WriteMultipleRegistersReq _ vs _ => 6 + 2 * List.length vs
  end%nat.

(** The flag [response] applies to each of [n] register values. *)
Definition signed_flags (signed : signed_arg) (n : nat) : list bool :=
  match signed with
  | Uniform s => repeat s n
  | PerElement flags => flags
  end.

(** * Properties *)

Ltac lia_div := zify; Z.div_mod_to_equations; lia.

(** ** Facts about [struct] *)

Lemma bind_ok {A B : Type} (r : result A) (k : A -> result B) (a : A) :
  r = Ok a -> bind r k = k a.
Proof. intros ->. reflexivity. Qed.

Lemma be_bytes_1 (v : Z) : struct.be_bytes 1 v = [v mod 256].
Proof.
  unfold struct.be_bytes. change (256 ^ Z.of_nat 0) with 1.
  now rewrite Z.div_1_r.
Qed.

Lemma be_bytes_2 (v : Z) :
  struct.be_bytes 2 v = [(v / 256) mod 256; v mod 256].
Proof.
  unfold struct.be_bytes.
  change (256 ^ Z.of_nat 1) with 256. change (256 ^ Z.of_nat 0) with 1.
  now rewrite Z.div_1_r.
Qed.

Lemma pack_one_ok (c : struct.code) (v : Z) :
  struct.lo c <= v <= struct.hi c ->
  struct.pack_one c v = Ok (struct.be_bytes (struct.size c) v).
Proof.
  intros [Hl Hh]. unfold struct.pack_one.
  apply Z.leb_le in Hl. apply Z.leb_le in Hh. now rewrite Hl, Hh.
Qed.

Lemma pack_one_err (c : struct.code) (v : Z) :
  ~ (struct.lo c <= v <= struct.hi c) ->
  struct.pack_one c v = Raise StructError.
Proof.
  intros Hn. unfold struct.pack_one.
  destruct (struct.lo c <=? v) eqn:Hl; [|reflexivity].
  destruct (v <=? struct.hi c) eqn:Hh; [|reflexivity].
  apply Z.leb_le in Hl. apply Z.leb_le in Hh. exfalso. apply Hn. lia.
Qed.

Lemma be_bytes_in_range (n : nat) (v : Z) :
  Forall is_byte (struct.be_bytes n v).
Proof.
  induction n as [|n IH]; cbn [struct.be_bytes]; constructor; [|exact IH].
  unfold is_byte. apply Z.mod_pos_bound. lia.
Qed.

Lemma pack_all_bytes_in_range (cs : list struct.code) :
  forall (args : list Z) (pdu : bytes),
    struct.pack_all cs args = Ok pdu -> Forall is_byte pdu.
Proof.
  induction cs as [|c cs IH]; intros [|v args] pdu Hpack;
    cbn [struct.pack_all] in Hpack; try discriminate.
  - injection Hpack as <-. constructor.
  - unfold struct.pack_one in Hpack.
    destruct ((struct.lo c <=? v) && (v <=? struct.hi c)); [|discriminate].
    cbn [bind] in Hpack.
    destruct (struct.pack_all cs args) as [r|e] eqn:Hr; [|discriminate].
    cbn [bind] in Hpack. injection Hpack as <-.
    apply Forall_app. split; [apply be_bytes_in_range | now apply (IH args)].
Qed.

(** Every [bytes] object that [struct.pack] returns holds bytes. *)
Lemma pack_bytes_in_range (fmt : string) (args : list Z) (pdu : bytes) :
  struct.pack fmt args = Ok pdu -> Forall is_byte pdu.
Proof.
  unfold struct.pack. destruct (struct.parse fmt) as [cs|]; [|discriminate].
  apply pack_all_bytes_in_range.
Qed.

Lemma pack_B (v : Z) : is_byte v -> struct.pack_one struct.B v = Ok [v].
Proof.
  intros Hv. unfold is_byte in Hv. rewrite pack_one_ok by (simpl; lia).
  simpl struct.size. rewrite be_bytes_1. now rewrite Z.mod_small by lia.
Qed.

Lemma pack_H (v : Z) :
  is_u16 v -> struct.pack_one struct.H v = Ok [v / 256; v mod 256].
Proof.
  intros Hv. unfold is_u16 in Hv. rewrite pack_one_ok by (simpl; lia).
  simpl struct.size. rewrite be_bytes_2.
  rewrite (Z.mod_small (v / 256)); [reflexivity|].
  split; [apply Z.div_pos; lia | apply Z.div_lt_upper_bound; lia].
Qed.

(** The format ['>BHH'] shared by the read requests, the single-coil write
    and the bulk-write acknowledgement. *)
Lemma pack_BHH (c a q : Z) :
  is_byte c -> is_u16 a -> is_u16 q ->
  struct.pack ">BHH" [c; a; q] = Ok [c; a / 256; a mod 256; q / 256; q mod 256].
Proof.
  intros Hc Ha Hq. unfold struct.pack.
  change (struct.parse ">BHH") with (Some [struct.B; struct.H; struct.H]).
  cbn [struct.pack_all].
  rewrite (pack_B c Hc), (pack_H a Ha), (pack_H q Hq). reflexivity.
Qed.

Lemma pack_BHH_bad_address (c a q : Z) :
  is_byte c -> ~ is_u16 a -> struct.pack ">BHH" [c; a; q] = Raise StructError.
Proof.
  intros Hc Ha. unfold struct.pack.
  change (struct.parse ">BHH") with (Some [struct.B; struct.H; struct.H]).
  cbn [struct.pack_all]. rewrite (pack_B c Hc).
  rewrite pack_one_err; [reflexivity|]. unfold is_u16 in Ha. simpl. lia.
Qed.

Lemma be16_div_mod (v : Z) : 256 * (v / 256) + v mod 256 = v.
Proof. symmetry. apply Z.div_mod. lia. Qed.

(** ** Read requests *)

Lemma read_request_in_range (op : read_op) (a q : Z) :
  is_u16 a -> 1 <= q <= read_max op ->
  read_request op a q =
    Ok [read_code op; a / 256; a mod 256; q / 256; q mod 256].
Proof.
  intros Ha Hq.
  assert (Hq16 : is_u16 q) by (unfold is_u16; destruct op; simpl in Hq; lia).
  destruct op; simpl in Hq; simpl read_request;
    [unfold read_coils | unfold read_discrete_inputs
    | unfold read_holding_registers | unfold read_input_registers];
    rewrite (proj2 (Z.leb_le 1 q)) by lia;
    rewrite (proj2 (Z.leb_le q _)) by lia;
    cbn [andb negb]; apply pack_BHH; auto; unfold is_byte;
    cbv; split; congruence.
Qed.

Lemma read_request_out_of_range (op : read_op) (a q : Z) :
  ~ (1 <= q <= read_max op) ->
  exists e, read_request op a q = Raise e /\ InvalidQuantity e.
Proof.
  intros Hq.
  assert (Hb : forall m, m = read_max op ->
                         negb ((1 <=? q) && (q <=? m)) = true).
  { intros m ->. destruct (1 <=? q) eqn:H1; [|reflexivity].
    destruct (q <=? read_max op) eqn:H2; [|reflexivity].
    apply Z.leb_le in H1. apply Z.leb_le in H2. exfalso. apply Hq. lia. }
  destruct op; simpl read_request; specialize (Hb _ eq_refl);
    simpl read_max in Hb;
    [unfold read_coils | unfold read_discrete_inputs
    | unfold read_holding_registers | unfold read_input_registers];
    rewrite Hb;
    (eexists; split; [reflexivity|]);
    (eexists; split; [reflexivity|]); simpl; tauto.
Qed.

(** C4: each read request with a 16-bit address and a quantity inside its
    range (1..2000 for coils and discrete inputs, 1..125 for holding and
    input registers) is the 5-byte PDU code, address, quantity, big-endian,
    and its quantity field decodes to the argument; a quantity outside the
    range raises InvalidQuantity whatever the address; ReadCoils accepts 2000
    and rejects 2001. *)
Theorem read_request_pdu (op : read_op) (a q : Z) (Ha : is_u16 a) :
  (1 <= q <= read_max op ->
     read_request op a q =
       Ok [read_code op; a / 256; a mod 256; q / 256; q mod 256] /\
     256 * (q / 256) + q mod 256 = q) /\
  (~ (1 <= q <= read_max op) ->
     exists e, read_request op a q = Raise e /\ InvalidQuantity e) /\
  read_coils a 2000 = Ok [1; a / 256; a mod 256; 7; 208] /\
  read_coils a 2001 = Raise (ValueError "Invalid number of coils").
Proof.
  repeat split.
  - now apply read_request_in_range.
  - apply be16_div_mod.
  - apply read_request_out_of_range.
  - apply (read_request_in_range ReadCoils a 2000 Ha). simpl. lia.
Qed.

Lemma read_request_pdu_witness :
  is_u16 19 /\
  read_request ReadHoldingRegisters 19 125 = Ok [3; 0; 19; 0; 125].
Proof.
  split; [unfold is_u16; lia|].
  apply (proj1 (proj1 (read_request_pdu ReadHoldingRegisters 19 125
                         ltac:(unfold is_u16; lia)) ltac:(simpl; lia))).
Defined.

(** ** Exception responses *)

(** On a 7-bit function code, adding the error bias sets the high bit. *)
Lemma error_bias_add_lor (fc : Z) :
  0 <= fc < 128 -> Const.ERROR_BIAS + fc = Z.lor fc Const.ERROR_BIAS.
Proof.
  intros Hfc. unfold Const.ERROR_BIAS.
  assert (Hland : Z.land 128 fc = 0).
  { apply Z.bits_inj'. intros n Hn. rewrite Z.land_spec, Z.bits_0.
    destruct (Z.eq_dec n 7) as [->|Hn7].
    - destruct (Z.eq_dec fc 0) as [->|Hnz]; [reflexivity|].
      rewrite (Z.bits_above_log2 fc 7); [apply andb_false_r | lia |].
      apply Z.log2_lt_pow2; [lia|]. change (2 ^ 7) with 128. lia.
    - change 128 with (2 ^ 7). rewrite Z.pow2_bits_false by lia. reflexivity. }
  rewrite Z.add_nocarry_lxor by exact Hland.
  rewrite Z.lxor_lor by exact Hland. apply Z.lor_comm.
Qed.

(** C8: for every 7-bit function code (all Modbus function codes are) and
    every exception code that is a byte, [exception_response] is the 2-byte
    PDU (function code | 0x80), exception code; [exception_response 3 2] is
    [0x83, 0x02]. *)
Theorem exception_response_pdu (function_code exception_code : Z)
  (Hfc : 0 <= function_code < 128) (Hec : is_byte exception_code) :
  exception_response function_code exception_code =
    Ok [Z.lor function_code 0x80; exception_code] /\
  exception_response 3 2 = Ok [0x83; 0x02].
Proof.
  split; [|reflexivity].
  unfold exception_response, struct.pack.
  change (struct.parse ">BB") with (Some [struct.B; struct.B]).
  cbn [struct.pack_all].
  rewrite (pack_B exception_code Hec).
  rewrite pack_B by (unfold is_byte, Const.ERROR_BIAS; lia).
  cbn [bind app]. rewrite (error_bias_add_lor _ Hfc). reflexivity.
Qed.

Lemma exception_response_pdu_witness :
  exception_response 16 4 = Ok [0x90; 0x04].
Proof.
  apply (proj1 (exception_response_pdu 16 4
                  ltac:(lia) ltac:(unfold is_byte; lia))).
Defined.

(** ** The response encoder on unknown function codes *)

Lemma mem_false (x : Z) (l : list Z) : ~ In x l -> mem x l = false.
Proof.
  intros Hn. unfold mem. destruct (existsb (Z.eqb x) l) eqn:He; [|reflexivity].
  apply existsb_exists in He. destruct He as [y [Hy Hxy]].
  apply Z.eqb_eq in Hxy. subst y. contradiction.
Qed.

Lemma mem_true (x : Z) (l : list Z) : In x l -> mem x l = true.
Proof.
  intros Hi. unfold mem. apply existsb_exists. exists x.
  split; [assumption | apply Z.eqb_refl].
Qed.

(** C10: with a function code outside 1, 2, 3, 4, 5, 6, 15, 16, [response]
    takes no branch: it raises nothing and returns [None], whatever its
    other arguments. *)
Theorem response_unknown_code (function_code addr qty : Z)
  (request_data : list Z) (value_list : option (list Z)) (signed : signed_arg)
  (Hfc : ~ In function_code known_function_codes) :
  response function_code addr qty request_data value_list signed = Ok None.
Proof.
  unfold response, known_function_codes in *.
  rewrite !mem_false; [reflexivity | | | |];
    unfold Const.READ_COILS, Const.READ_DISCRETE_INPUTS,
      Const.READ_HOLDING_REGISTERS, Const.READ_INPUT_REGISTER,
      Const.WRITE_SINGLE_COIL, Const.WRITE_SINGLE_REGISTER,
      Const.WRITE_MULTIPLE_COILS, Const.WRITE_MULTIPLE_REGISTERS;
    simpl in *; tauto.
Qed.

Lemma response_unknown_code_witness :
  response 7 0 1 [255; 0] (Some [1; 0; 1]) (Uniform true) = Ok None.
Proof.
  apply (response_unknown_code 7 0 1 [255; 0] (Some [1; 0; 1]) (Uniform true)).
  unfold known_function_codes. simpl. lia.
Defined.

(** ** Single-coil writes *)

Lemma write_single_coil_other_int (a z : Z) :
  z <> 0 -> z <> 0xFF00 -> z <> 1 ->
  write_single_coil a (PInt z) = Raise illegal_coil_value.
Proof.
  intros H0 Hff H1. unfold write_single_coil, py_in, py_eq. simpl.
  rewrite (proj2 (Z.eqb_neq z 0) H0), (proj2 (Z.eqb_neq z 65280) Hff),
    (proj2 (Z.eqb_neq z 1) H1).
  reflexivity.
Qed.

(** C5 as stated fails: the integer 1 is none of boolean true, boolean
    false, 0x0000 and 0xFF00, yet it is accepted, because [1 == True]. *)
Lemma write_single_coil_accepts_int_one :
  ~ (forall (a : Z) (v : pyval),
       v <> PBool true -> v <> PBool false ->
       v <> PInt 0x0000 -> v <> PInt 0xFF00 ->
       exists e, write_single_coil a v = Raise e /\ IllegalValue e).
Proof.
  intros Hclaim.
  destruct (Hclaim 0 (PInt 1)) as [e [He _]]; try discriminate.
Qed.

(** C5, amended: [True] is encoded as 0xFF00 and [False] as 0x0000, for
    every address; the integer 1, which equals [True], is encoded as 0xFF00
    too; every other integer than 0x0000, 0xFF00 and 1 (5, say) raises
    IllegalValue. *)
Theorem write_single_coil_values (a : Z) :
  write_single_coil a (PBool true) = write_single_coil a (PInt 0xFF00) /\
  write_single_coil a (PBool false) = write_single_coil a (PInt 0x0000) /\
  write_single_coil a (PInt 1) = write_single_coil a (PInt 0xFF00) /\
  (forall z : Z, z <> 0x0000 -> z <> 0xFF00 -> z <> 1 ->
     write_single_coil a (PInt z) = Raise illegal_coil_value /\
     IllegalValue illegal_coil_value) /\
  write_single_coil a (PInt 5) = Raise illegal_coil_value /\
  (is_u16 a ->
     write_single_coil a (PBool true) = Ok [5; a / 256; a mod 256; 0xFF; 0x00] /\
     write_single_coil a (PBool false) = Ok [5; a / 256; a mod 256; 0x00; 0x00]).
Proof.
  repeat split; try reflexivity.
  - now apply write_single_coil_other_int.
  - change (write_single_coil a (PBool true))
      with (struct.pack ">BHH" [5; a; 65280]).
    apply (pack_BHH 5 a 65280); unfold is_byte, is_u16; auto; lia.
  - change (write_single_coil a (PBool false))
      with (struct.pack ">BHH" [5; a; 0]).
    apply (pack_BHH 5 a 0); unfold is_byte, is_u16; auto; lia.
Qed.

Lemma write_single_coil_values_witness :
  write_single_coil 3 (PInt 7) = Raise illegal_coil_value /\
  write_single_coil 3 (PBool true) = Ok [5; 0; 3; 0xFF; 0x00].
Proof.
  pose proof (write_single_coil_values 3) as (_ & _ & _ & Hother & _ & Hpdu).
  split.
  - apply (proj1 (Hother 7 ltac:(lia) ltac:(lia) ltac:(lia))).
  - apply (proj1 (Hpdu ltac:(unfold is_u16; lia))).
Defined.

(** ** Response validation *)

Lemma parse_validate_fmt (signed : bool) :
  struct.parse (validate_fmt signed) =
    Some [struct.H; if signed then struct.h else struct.H].
Proof. destruct signed; reflexivity. Qed.

Lemma unpack_validate_fmt_4 (signed : bool) (b0 b1 b2 b3 : Z) :
  struct.unpack (validate_fmt signed) [b0; b1; b2; b3] =
    Ok [resp_address b0 b1; resp_field signed b2 b3].
Proof.
  unfold struct.unpack. rewrite parse_validate_fmt.
  unfold resp_address, resp_field.
  destruct signed;
    cbv [struct.calcsize fold_right struct.size Nat.add List.length Nat.eqb
         struct.unpack_all firstn skipn struct.decode struct.is_signed andb
         struct.be_int fold_left];
    change (2 ^ (8 * Z.of_nat 2 - 1)) with 32768;
    change (2 ^ (8 * Z.of_nat 2)) with 65536;
    replace ((0 * 256 + b0) * 256 + b1) with (256 * b0 + b1) by ring;
    replace ((0 * 256 + b2) * 256 + b3) with (256 * b2 + b3) by ring;
    reflexivity.
Qed.

Lemma unpack_validate_fmt_bad_length (signed : bool) (data : bytes) :
  List.length data <> 4%nat ->
  struct.unpack (validate_fmt signed) data = Raise StructError.
Proof.
  intros Hlen. unfold struct.unpack. rewrite parse_validate_fmt.
  replace (struct.calcsize [struct.H; if signed then struct.h else struct.H])
    with 4%nat by (destruct signed; reflexivity).
  now rewrite (proj2 (Nat.eqb_neq _ _) Hlen).
Qed.

Lemma length_4 {A : Type} (l : list A) :
  List.length l = 4%nat -> exists a b c d, l = [a; b; c; d].
Proof.
  destruct l as [|a [|b [|c [|d [|e l]]]]]; try discriminate.
  intros _. now exists a, b, c, d.
Qed.

Lemma validate_resp_data_4 (b0 b1 b2 b3 function_code address : Z)
  (value quantity : option Z) (signed : bool) :
  validate_resp_data [b0; b1; b2; b3] function_code address value quantity
    signed =
  Ok (if mem function_code [5; 6]
      then (address =? resp_address b0 b1)
           && opt_eq value (resp_field signed b2 b3)
      else if mem function_code [15; 16]
      then (address =? resp_address b0 b1)
           && opt_eq quantity (resp_field signed b2 b3)
      else false).
Proof.
  unfold validate_resp_data. fold (validate_fmt signed).
  rewrite unpack_validate_fmt_4.
  change [Const.WRITE_SINGLE_COIL; Const.WRITE_SINGLE_REGISTER] with [5; 6].
  change [Const.WRITE_MULTIPLE_COILS; Const.WRITE_MULTIPLE_REGISTERS]
    with [15; 16].
  destruct (mem function_code [5; 6]); cbn [bind].
  - now destruct ((address =? resp_address b0 b1)
                  && opt_eq value (resp_field signed b2 b3)).
  - destruct (mem function_code [15; 16]); cbn [bind]; [|reflexivity].
    now destruct ((address =? resp_address b0 b1)
                  && opt_eq quantity (resp_field signed b2 b3)).
Qed.

Lemma validate_resp_data_other (data : bytes) (function_code address : Z)
  (value quantity : option Z) (signed : bool) :
  ~ In function_code write_codes ->
  validate_resp_data data function_code address value quantity signed
    = Ok false.
Proof.
  intros Hfc. unfold validate_resp_data, write_codes in *.
  rewrite !mem_false; [reflexivity | |];
    unfold Const.WRITE_SINGLE_COIL, Const.WRITE_SINGLE_REGISTER,
      Const.WRITE_MULTIPLE_COILS, Const.WRITE_MULTIPLE_REGISTERS;
    simpl in *; tauto.
Qed.

Lemma validate_resp_data_bad_length (data : bytes) (function_code address : Z)
  (value quantity : option Z) (signed : bool) :
  In function_code write_codes -> List.length data <> 4%nat ->
  validate_resp_data data function_code address value quantity signed
    = Raise StructError.
Proof.
  intros Hfc Hlen. unfold validate_resp_data. fold (validate_fmt signed).
  rewrite (unpack_validate_fmt_bad_length signed data Hlen).
  unfold write_codes in Hfc. simpl in Hfc.
  destruct Hfc as [<-|[<-|[<-|[<-|[]]]]]; reflexivity.
Qed.

(** C2 fails on the code, against the claim and against the function's
    own docstring (True if valid, False otherwise): on an empty buffer and
    a write function code, [struct.unpack] raises, and nothing catches
    it. *)
Lemma validate_resp_data_raises :
  ~ (forall (data : bytes) (function_code address : Z)
       (value quantity : option Z) (signed : bool),
       exists b : bool,
         validate_resp_data data function_code address value quantity signed
           = Ok b).
Proof.
  intros Hclaim.
  destruct (Hclaim [] 5 0 (Some 0) None true) as [b Hb]. discriminate Hb.
Qed.

(** C2, the extent of the defect: [validate_resp_data] returns a boolean,
    without raising, exactly when the function code is not one of the four
    write codes or the data is 4 bytes long; for a write code and data of
    any other length it raises [struct.error], where its docstring
    promises [False]. *)
Theorem validate_resp_data_returns (data : bytes) (function_code address : Z)
  (value quantity : option Z) (signed : bool) :
  ((exists b : bool,
      validate_resp_data data function_code address value quantity signed
        = Ok b) <->
   (~ In function_code write_codes \/ List.length data = 4%nat)) /\
  ((In function_code write_codes /\ List.length data <> 4%nat) <->
   validate_resp_data data function_code address value quantity signed
     = Raise StructError).
Proof.
  assert (Hdec : In function_code write_codes \/
                 ~ In function_code write_codes).
  { destruct (in_dec Z.eq_dec function_code write_codes); tauto. }
  assert (Hlen : List.length data = 4%nat \/ List.length data <> 4%nat) by lia.
  destruct Hdec as [Hin|Hout].
  - destruct Hlen as [H4|Hn4].
    + destruct (length_4 data H4) as (b0 & b1 & b2 & b3 & ->).
      rewrite validate_resp_data_4. split; split.
      * tauto.
      * intros _. eexists. reflexivity.
      * intros [_ Hn]. contradiction.
      * discriminate.
    + rewrite (validate_resp_data_bad_length data _ _ _ _ _ Hin Hn4).
      split; split.
      * intros [b Hb]. discriminate Hb.
      * intros [Hc|Hc]; contradiction.
      * reflexivity.
      * tauto.
  - rewrite (validate_resp_data_other data _ _ _ _ _ Hout). split; split.
    + tauto.
    + intros _. now exists false.
    + intros [Hc _]. contradiction.
    + discriminate.
Qed.

Lemma opt_eq_true (expected : option Z) (resp : Z) :
  opt_eq expected resp = true <-> expected = Some resp.
Proof.
  destruct expected as [v|]; simpl.
  - rewrite Z.eqb_eq. split; [now intros -> | now intros [= ->]].
  - split; discriminate.
Qed.

(** C7: on a 4-byte acknowledgement [b0 b1 b2 b3], whose address is
    [256 b0 + b1] and whose field is [256 b2 + b3] read as signed or
    unsigned per the flag, [validate_resp_data] returns true exactly when
    the address equals the expected address and the field equals the
    expected value (function codes 5 and 6) or the expected quantity
    (function codes 15 and 16), and false otherwise; for every other
    function code it returns false on any data. *)
Theorem validate_resp_data_match (data : bytes) (b0 b1 b2 b3 : Z)
  (function_code address : Z) (value quantity : option Z) (signed : bool)
  (Hdata : data = [b0; b1; b2; b3]) :
  let validate :=
    validate_resp_data data function_code address value quantity signed in
  (In function_code [5; 6] ->
     exists r : bool, validate = Ok r /\
       (r = true <-> address = resp_address b0 b1 /\
                     value = Some (resp_field signed b2 b3))) /\
  (In function_code [15; 16] ->
     exists r : bool, validate = Ok r /\
       (r = true <-> address = resp_address b0 b1 /\
                     quantity = Some (resp_field signed b2 b3))) /\
  (~ In function_code [5; 6; 15; 16] ->
     forall other : bytes,
       validate_resp_data other function_code address value quantity signed
         = Ok false).
Proof.
  subst data. cbv zeta. rewrite validate_resp_data_4. repeat split.
  - intros Hfc. rewrite (mem_true _ _ Hfc). eexists. split; [reflexivity|].
    now rewrite andb_true_iff, Z.eqb_eq, opt_eq_true.
  - intros Hfc.
    assert (Hn : ~ In function_code [5; 6]) by (simpl in *; lia).
    rewrite (mem_false _ _ Hn), (mem_true _ _ Hfc).
    eexists. split; [reflexivity|].
    now rewrite andb_true_iff, Z.eqb_eq, opt_eq_true.
  - intros Hfc other. now apply validate_resp_data_other.
Qed.

Lemma validate_resp_data_match_witness :
  validate_resp_data [0; 1; 255; 254] 6 1 (Some (-2)) None true = Ok true.
Proof.
  destruct (validate_resp_data_match [0; 1; 255; 254] 0 1 255 254 6 1
              (Some (-2)) None true eq_refl) as [Hsingle _].
  destruct (Hsingle ltac:(simpl; lia)) as [r [Hr Hiff]].
  rewrite Hr. f_equal. apply Hiff. split; reflexivity.
Defined.

(** ** Bit packing *)

Lemma range_aux_8 (fuel : nat) :
  forall i stop : nat,
    ((stop + 7 - i) / 8 <= fuel)%nat ->
    range_aux fuel i stop 8 =
      map (fun k => (i + 8 * k)%nat) (seq 0 ((stop + 7 - i) / 8)).
Proof.
  induction fuel as [|fuel IH]; intros i stop Hfuel.
  - replace ((stop + 7 - i) / 8)%nat with 0%nat by lia. reflexivity.
  - cbn [range_aux]. destruct (Nat.ltb i stop) eqn:Hlt.
    + apply Nat.ltb_lt in Hlt.
      assert (Hdiv : ((stop + 7 - i) / 8 = S ((stop + 7 - (i + 8)) / 8))%nat)
        by lia_div.
      rewrite Hdiv. cbn [seq map]. rewrite IH by lia.
      f_equal; [lia|]. rewrite <- seq_shift, map_map.
      apply map_ext. intros k. lia.
    + apply Nat.ltb_ge in Hlt.
      replace ((stop + 7 - i) / 8)%nat with 0%nat by lia_div. reflexivity.
Qed.

Lemma range_8 (n : nat) :
  range 0 n 8 = map (fun k => (8 * k)%nat) (seq 0 ((n + 7) / 8)).
Proof.
  unfold range. rewrite range_aux_8 by lia_div.
  replace (n + 7 - 0)%nat with (n + 7)%nat by lia. reflexivity.
Qed.

Lemma sectioned_list_eq (l : list Z) :
  sectioned_list l =
    map (fun k => firstn 8 (skipn (8 * k) l))
        (seq 0 ((List.length l + 7) / 8)).
Proof.
  unfold sectioned_list. rewrite range_8, map_map.
  apply map_ext. intros k. unfold slice. f_equal. lia.
Qed.

Lemma pack_coil_bits_length (l : list Z) :
  List.length (pack_coil_bits l) = ((List.length l + 7) / 8)%nat.
Proof.
  unfold pack_coil_bits.
  now rewrite sectioned_list_eq, !length_map, length_seq.
Qed.

(** The byte count the encoders emit is the number of packed bytes. *)
Lemma pack_coil_bits_byte_count (l : list Z) :
  len (pack_coil_bits l) = (len l - 1) / 8 + 1.
Proof. unfold len. rewrite pack_coil_bits_length. lia_div. Qed.

Lemma pack_coil_bits_nth (l : list Z) (j : nat) :
  (j < List.length (pack_coil_bits l))%nat ->
  nth j (pack_coil_bits l) 0 = fold_bits (firstn 8 (skipn (8 * j) l)).
Proof.
  intros Hj. rewrite pack_coil_bits_length in Hj.
  unfold pack_coil_bits. rewrite sectioned_list_eq, map_map.
  set (f := fun k => fold_bits (firstn 8 (skipn (8 * k) l))).
  rewrite (nth_indep _ 0 (f 0%nat)) by (now rewrite length_map, length_seq).
  rewrite map_nth, seq_nth by assumption. reflexivity.
Qed.

Lemma group_length (l : list Z) (j : nat) :
  List.length (firstn 8 (skipn (8 * j) l)) =
    Nat.min 8 (List.length l - 8 * j).
Proof. now rewrite length_firstn, length_skipn. Qed.

Lemma group_nth (l : list Z) (j i : nat) :
  (i < 8)%nat ->
  nth i (firstn 8 (skipn (8 * j) l)) 0 = nth (8 * j + i) l 0.
Proof.
  intros Hi. rewrite nth_firstn, nth_skipn.
  now rewrite (proj2 (Nat.ltb_lt i 8) Hi).
Qed.

(** On a non-negative accumulator and a bit, shift-and-or is [2 acc + bit]. *)
Lemma shift_or_bit (acc bit : Z) :
  0 <= acc -> is_bit bit -> Z.lor (Z.shiftl acc 1) bit = 2 * acc + bit.
Proof.
  intros Hacc [-> | ->]; destruct acc as [|p|p]; try reflexivity; lia.
Qed.

Lemma fold_bits_acc_bounds (g : list Z) :
  Forall is_bit g ->
  forall acc : Z, 0 <= acc ->
    0 <= fold_left (fun output bit => Z.lor (Z.shiftl output 1) bit) g acc
      < (acc + 1) * 2 ^ Z.of_nat (List.length g).
Proof.
  induction 1 as [|b g Hb Hg IH]; intros acc Hacc.
  - simpl. lia.
  - cbn [fold_left List.length]. rewrite (shift_or_bit acc b Hacc Hb).
    assert (Hb' : 0 <= b <= 1) by (destruct Hb; lia).
    specialize (IH (2 * acc + b) ltac:(lia)).
    rewrite Nat2Z.inj_succ, Z.pow_succ_r by lia.
    assert (Hpow : 0 < 2 ^ Z.of_nat (List.length g))
      by (apply Z.pow_pos_nonneg; lia).
    nia.
Qed.

Lemma fold_bits_bounds (g : list Z) :
  Forall is_bit g -> 0 <= fold_bits g < 2 ^ Z.of_nat (List.length g).
Proof.
  intros Hg. pose proof (fold_bits_acc_bounds g Hg 0 ltac:(lia)) as Hb.
  unfold fold_bits. lia.
Qed.

(** Bit [p] of the folded group: the group's bits fill the low positions,
    last bit at position 0, above the accumulator's. *)
Lemma fold_bits_acc_testbit (g : list Z) :
  Forall is_bit g ->
  forall (acc : Z) (p : nat), 0 <= acc ->
    Z.testbit
      (fold_left (fun output bit => Z.lor (Z.shiftl output 1) bit) g acc)
      (Z.of_nat p) =
    if Nat.ltb p (List.length g)
    then Z.odd (nth (List.length g - 1 - p) g 0)
    else Z.testbit acc (Z.of_nat (p - List.length g)).
Proof.
  induction 1 as [|b g Hb Hg IH]; intros acc p Hacc.
  - cbn [fold_left List.length]. rewrite Nat.sub_0_r. reflexivity.
  - cbn [fold_left List.length]. rewrite (shift_or_bit acc b Hacc Hb).
    assert (Hb' : 0 <= b <= 1) by (destruct Hb; lia).
    rewrite (IH (2 * acc + b) p ltac:(lia)).
    destruct (Nat.ltb p (List.length g)) eqn:Hp.
    + apply Nat.ltb_lt in Hp.
      rewrite (proj2 (Nat.ltb_lt p (S (List.length g)))) by lia.
      replace (S (List.length g) - 1 - p)%nat
        with (S (List.length g - 1 - p)) by lia.
      reflexivity.
    + apply Nat.ltb_ge in Hp.
      destruct (Nat.eq_dec p (List.length g)) as [->|Hne].
      * rewrite (proj2 (Nat.ltb_lt _ _)) by lia.
        replace (List.length g - List.length g)%nat with 0%nat by lia.
        replace (S (List.length g) - 1 - List.length g)%nat with 0%nat by lia.
        cbn [nth Z.of_nat]. rewrite Z.bit0_odd.
        destruct Hb as [-> | ->].
        -- rewrite Z.add_0_r, Z.odd_mul. reflexivity.
        -- rewrite Z.add_comm, Z.odd_add_mul_2. reflexivity.
      * rewrite (proj2 (Nat.ltb_ge p (S (List.length g)))) by lia.
        replace (Z.of_nat (p - List.length g))
          with (Z.succ (Z.of_nat (p - S (List.length g)))) by lia.
        destruct Hb as [-> | ->].
        -- rewrite Z.add_0_r. apply Z.testbit_even_succ. lia.
        -- apply Z.testbit_odd_succ. lia.
Qed.

Lemma fold_bits_testbit (g : list Z) (p : nat) :
  Forall is_bit g ->
  Z.testbit (fold_bits g) (Z.of_nat p) =
    if Nat.ltb p (List.length g)
    then Z.odd (nth (List.length g - 1 - p) g 0)
    else false.
Proof.
  intros Hg. unfold fold_bits.
  rewrite (fold_bits_acc_testbit g Hg 0 p ltac:(lia)).
  now rewrite Z.bits_0.
Qed.

Lemma Forall_firstn {A : Type} (P : A -> Prop) (n : nat) :
  forall l : list A, Forall P l -> Forall P (firstn n l).
Proof.
  induction n as [|n IH]; intros l Hl; [constructor|].
  destruct Hl as [|x l Hx Hl]; cbn [firstn]; constructor; auto.
Qed.

Lemma Forall_skipn {A : Type} (P : A -> Prop) (n : nat) :
  forall l : list A, Forall P l -> Forall P (skipn n l).
Proof.
  induction n as [|n IH]; intros l Hl; [exact Hl|].
  destruct Hl as [|x l Hx Hl]; cbn [skipn]; [constructor | auto].
Qed.

Lemma group_bits (l : list Z) (j : nat) :
  Forall is_bit l -> Forall is_bit (firstn 8 (skipn (8 * j) l)).
Proof. intros Hl. now apply Forall_firstn, Forall_skipn. Qed.

Lemma fold_bits_group_byte (l : list Z) (j : nat) :
  Forall is_bit l -> is_byte (fold_bits (firstn 8 (skipn (8 * j) l))).
Proof.
  intros Hl. pose proof (fold_bits_bounds _ (group_bits l j Hl)) as Hb.
  rewrite group_length in Hb. unfold is_byte.
  assert (Hpow : 2 ^ Z.of_nat (Nat.min 8 (List.length l - 8 * j)) <= 2 ^ 8)
    by (apply Z.pow_le_mono_r; lia).
  change (2 ^ 8) with 256 in Hpow. lia.
Qed.

Lemma pack_coil_bits_bytes (l : list Z) :
  Forall is_bit l -> Forall is_byte (pack_coil_bits l).
Proof.
  intros Hl. unfold pack_coil_bits. rewrite sectioned_list_eq, map_map.
  apply Forall_forall. intros b Hb. apply in_map_iff in Hb.
  destruct Hb as [k [<- _]]. now apply fold_bits_group_byte.
Qed.

(** *** Formats built at run time *)

Lemma parse_codes_app (s t : string) :
  struct.parse_codes (String.append s t) =
    match struct.parse_codes s, struct.parse_codes t with
    | Some ks, Some kt => Some (ks ++ kt)
    | _, _ => None
    end.
Proof.
  induction s as [|c s IH]; cbn [String.append struct.parse_codes].
  - now destruct (struct.parse_codes t).
  - rewrite IH. destruct (struct.code_of_ascii c); [|reflexivity].
    destruct (struct.parse_codes s); [|reflexivity].
    now destruct (struct.parse_codes t).
Qed.

Lemma parse_app (s t : string) (ks kt : list struct.code) :
  struct.parse s = Some ks -> struct.parse_codes t = Some kt ->
  struct.parse (String.append s t) = Some (ks ++ kt).
Proof.
  destruct s as [|c s]; [discriminate|].
  cbn [String.append struct.parse].
  destruct (Ascii.eqb c ">" || Ascii.eqb c "!"); [|discriminate].
  intros Hs Ht. now rewrite parse_codes_app, Hs, Ht.
Qed.

Lemma parse_codes_mul (s : string) (k : struct.code) (n : nat) :
  struct.parse_codes s = Some [k] ->
  struct.parse_codes (str_mul s n) = Some (repeat k n).
Proof.
  intros Hs. induction n as [|n IH]; [reflexivity|].
  cbn [str_mul repeat]. now rewrite parse_codes_app, Hs, IH.
Qed.

Lemma pack_all_app (cs1 cs2 : list struct.code) :
  forall (a1 a2 : list Z) (b1 : bytes),
    struct.pack_all cs1 a1 = Ok b1 ->
    struct.pack_all (cs1 ++ cs2) (a1 ++ a2) =
      (b2 <- struct.pack_all cs2 a2 ;; Ok (b1 ++ b2)).
Proof.
  induction cs1 as [|c cs1 IH]; intros a1 a2 b1 H1.
  - destruct a1; [|discriminate]. injection H1 as <-. cbn [app].
    now destruct (struct.pack_all cs2 a2).
  - destruct a1 as [|v a1]; [discriminate|].
    cbn [app struct.pack_all] in *.
    destruct (struct.pack_one c v) as [b|e]; [|discriminate].
    cbn [bind] in *.
    destruct (struct.pack_all cs1 a1) as [r|e] eqn:Hr; [|discriminate].
    cbn [bind] in H1. injection H1 as <-.
    rewrite (IH a1 a2 r Hr).
    destruct (struct.pack_all cs2 a2); cbn [bind]; [|reflexivity].
    now rewrite app_assoc.
Qed.

Lemma pack_all_B (vs : list Z) :
  Forall is_byte vs ->
  struct.pack_all (repeat struct.B (List.length vs)) vs = Ok vs.
Proof.
  induction 1 as [|v vs Hv Hvs IH]; [reflexivity|].
  cbn [List.length repeat struct.pack_all].
  now rewrite (pack_B v Hv), IH.
Qed.

Lemma pack_all_16 (signed : bool) (vs : list Z) :
  Forall (fits16 signed) vs ->
  struct.pack_all (repeat (code16 signed) (List.length vs)) vs =
    Ok (flat_map be16 vs).
Proof.
  induction 1 as [|v vs Hv Hvs IH]; [reflexivity|].
  cbn [List.length repeat struct.pack_all flat_map].
  rewrite pack_one_ok by (destruct signed; simpl in *; lia).
  replace (struct.size (code16 signed)) with 2%nat by now destruct signed.
  rewrite be_bytes_2, IH. reflexivity.
Qed.

Lemma pack_all_BHHB (c a q n : Z) :
  is_byte c -> is_u16 a -> is_u16 q -> is_byte n ->
  struct.pack_all [struct.B; struct.H; struct.H; struct.B] [c; a; q; n] =
    Ok [c; a / 256; a mod 256; q / 256; q mod 256; n].
Proof.
  intros Hc Ha Hq Hn. cbn [struct.pack_all].
  now rewrite (pack_B c Hc), (pack_H a Ha), (pack_H q Hq), (pack_B n Hn).
Qed.

(** ** Bulk writes *)

Lemma write_multiple_coils_ok (a : Z) (bits : list Z) :
  is_u16 a -> Forall is_bit bits -> 1 <= len bits <= 1968 ->
  write_multiple_coils a bits =
    Ok ([15; a / 256; a mod 256; len bits / 256; len bits mod 256;
         (len bits - 1) / 8 + 1] ++ pack_coil_bits bits).
Proof.
  intros Ha Hbits Hlen. unfold write_multiple_coils.
  rewrite (proj2 (Z.leb_le 1 _)) by lia.
  rewrite (proj2 (Z.leb_le _ 1968)) by lia.
  cbn [andb negb]. unfold struct.pack.
  rewrite (parse_app ">BHHB" _ [struct.B; struct.H; struct.H; struct.B]
             (repeat struct.B (List.length (pack_coil_bits bits))))
    by (reflexivity || now apply parse_codes_mul).
  rewrite (pack_all_app _ _ _ _ _
             (pack_all_BHHB Const.WRITE_MULTIPLE_COILS a (len bits)
                ((len bits - 1) / 8 + 1)
                ltac:(unfold is_byte, Const.WRITE_MULTIPLE_COILS; lia)
                Ha ltac:(unfold is_u16; lia)
                ltac:(unfold is_byte; lia_div))).
  rewrite pack_all_B by now apply pack_coil_bits_bytes.
  reflexivity.
Qed.

Lemma write_multiple_coils_bad_length (a : Z) (bits : list Z) :
  ~ (1 <= len bits <= 1968) ->
  write_multiple_coils a bits = Raise (ValueError "Invalid quantity of outputs").
Proof.
  intros Hlen. unfold write_multiple_coils.
  destruct (1 <=? len bits) eqn:H1; [|reflexivity].
  destruct (len bits <=? 1968) eqn:H2; [|reflexivity].
  apply Z.leb_le in H1. apply Z.leb_le in H2. lia.
Qed.

Lemma write_multiple_registers_ok (a : Z) (regs : list Z) (signed : bool) :
  is_u16 a -> Forall (fits16 signed) regs -> 1 <= len regs <= 123 ->
  write_multiple_registers a regs signed =
    Ok ([16; a / 256; a mod 256; len regs / 256; len regs mod 256;
         len regs * 2] ++ flat_map be16 regs).
Proof.
  intros Ha Hregs Hlen. unfold write_multiple_registers.
  rewrite (proj2 (Z.leb_le 1 _)) by lia.
  rewrite (proj2 (Z.leb_le _ 123)) by lia.
  cbn [andb negb]. unfold struct.pack.
  rewrite (parse_app ">BHHB" _ [struct.B; struct.H; struct.H; struct.B]
             (repeat (code16 signed) (List.length regs)))
    by (reflexivity || (apply parse_codes_mul; now destruct signed)).
  rewrite (pack_all_app _ _ _ _ _
             (pack_all_BHHB Const.WRITE_MULTIPLE_REGISTERS a (len regs)
                (len regs * 2)
                ltac:(unfold is_byte, Const.WRITE_MULTIPLE_REGISTERS; lia)
                Ha ltac:(unfold is_u16; lia)
                ltac:(unfold is_byte; lia))).
  rewrite pack_all_16 by assumption.
  reflexivity.
Qed.

Lemma write_multiple_registers_bad_length (a : Z) (regs : list Z)
  (signed : bool) :
  ~ (1 <= len regs <= 123) ->
  write_multiple_registers a regs signed =
    Raise (ValueError "Invalid number of registers").
Proof.
  intros Hlen. unfold write_multiple_registers.
  destruct (1 <=? len regs) eqn:H1; [|reflexivity].
  destruct (len regs <=? 123) eqn:H2; [|reflexivity].
  apply Z.leb_le in H1. apply Z.leb_le in H2. lia.
Qed.

Lemma length_flat_map_be16 (regs : list Z) :
  len (flat_map be16 regs) = 2 * len regs.
Proof.
  unfold len. rewrite (flat_map_constant_length (c := 2%nat)) by reflexivity.
  lia.
Qed.

Lemma invalid_quantity_outputs :
  InvalidQuantity (ValueError "Invalid quantity of outputs").
Proof. eexists. split; [reflexivity|]. simpl. tauto. Qed.

Lemma invalid_quantity_registers :
  InvalidQuantity (ValueError "Invalid number of registers").
Proof. eexists. split; [reflexivity|]. simpl. tauto. Qed.

(** C6: with a 16-bit address, coil values that are bits and register
    values that fit the 16-bit format of the flag, [write_multiple_coils]
    returns a PDU exactly for 1 to 1968 values, with byte count
    ((len-1)/8)+1, and [write_multiple_registers] exactly for 1 to 123
    values, with byte count twice the quantity; any other length raises
    InvalidQuantity.  1968 ones are accepted and 1969 are rejected. *)
Theorem bulk_write_lengths (a : Z) (values regs : list Z) (signed : bool)
  (Ha : is_u16 a) (Hvalues : Forall is_bit values)
  (Hregs : Forall (fits16 signed) regs) :
  (1 <= len values <= 1968 ->
     write_multiple_coils a values =
       Ok ([15; a / 256; a mod 256; len values / 256; len values mod 256;
            (len values - 1) / 8 + 1] ++ pack_coil_bits values) /\
     len (pack_coil_bits values) = (len values - 1) / 8 + 1) /\
  (~ (1 <= len values <= 1968) ->
     exists e, write_multiple_coils a values = Raise e /\ InvalidQuantity e) /\
  (1 <= len regs <= 123 ->
     write_multiple_registers a regs signed =
       Ok ([16; a / 256; a mod 256; len regs / 256; len regs mod 256;
            2 * len regs] ++ flat_map be16 regs) /\
     len (flat_map be16 regs) = 2 * len regs) /\
  (~ (1 <= len regs <= 123) ->
     exists e, write_multiple_registers a regs signed = Raise e /\
               InvalidQuantity e) /\
  (exists pdu, write_multiple_coils 0 (repeat 1 1968) = Ok pdu) /\
  write_multiple_coils 0 (repeat 1 1969) =
    Raise (ValueError "Invalid quantity of outputs").
Proof.
  split; [|split; [|split; [|split; [|split]]]].
  - intros Hlen. split.
    + now apply write_multiple_coils_ok.
    + apply pack_coil_bits_byte_count.
  - intros Hlen. eexists. split.
    + now apply write_multiple_coils_bad_length.
    + apply invalid_quantity_outputs.
  - intros Hlen. split.
    + rewrite (Z.mul_comm 2). now apply write_multiple_registers_ok.
    + apply length_flat_map_be16.
  - intros Hlen. eexists. split.
    + now apply write_multiple_registers_bad_length.
    + apply invalid_quantity_registers.
  - eexists. vm_compute. reflexivity.
  - reflexivity.
Qed.

Lemma bulk_write_lengths_witness :
  write_multiple_coils 7 [1; 0; 1; 1; 0; 0; 0; 1; 1] =
    Ok [15; 0; 7; 0; 9; 2; 177; 1] /\
  write_multiple_registers 7 [1; -1] true =
    Ok [16; 0; 7; 0; 2; 4; 0; 1; 255; 255].
Proof.
  assert (Ha : is_u16 7) by (unfold is_u16; lia).
  assert (Hvalues : Forall is_bit [1; 0; 1; 1; 0; 0; 0; 1; 1])
    by (repeat constructor; unfold is_bit; lia).
  assert (Hregs : Forall (fits16 true) [1; -1])
    by (repeat constructor; simpl; lia).
  destruct (bulk_write_lengths 7 [1; 0; 1; 1; 0; 0; 0; 1; 1] [1; -1] true
              Ha Hvalues Hregs) as (Hcoils & _ & Hregisters & _).
  split.
  - apply (proj1 (Hcoils ltac:(unfold len; simpl; lia))).
  - apply (proj1 (Hregisters ltac:(unfold len; simpl; lia))).
Defined.

(** ** The layout of the packed coil bits *)

Lemma response_read_coils (fc addr qty : Z) (request_data bits : list Z)
  (signed : signed_arg) :
  In fc [1; 2] -> Forall is_bit bits -> len bits <= 2040 ->
  response fc addr qty request_data (Some bits) signed =
    Ok (Some ([fc; (len bits - 1) / 8 + 1] ++ pack_coil_bits bits)).
Proof.
  intros Hfc Hbits Hlen. unfold response.
  change [Const.READ_COILS; Const.READ_DISCRETE_INPUTS] with [1; 2].
  rewrite (mem_true _ _ Hfc). cbn [len_opt bind]. unfold struct.pack.
  rewrite (parse_app ">BB" _ [struct.B; struct.B]
             (repeat struct.B (List.length (pack_coil_bits bits))))
    by (reflexivity || now apply parse_codes_mul).
  assert (Hhead : struct.pack_all [struct.B; struct.B]
                    [fc; (len bits - 1) / 8 + 1] =
                  Ok [fc; (len bits - 1) / 8 + 1]).
  { cbn [struct.pack_all].
    rewrite pack_B by (unfold is_byte; simpl in Hfc; lia).
    rewrite pack_B by (unfold is_byte, len in *; lia_div).
    reflexivity. }
  rewrite (pack_all_app _ _ _ _ _ Hhead).
  rewrite pack_all_B by now apply pack_coil_bits_bytes.
  reflexivity.
Qed.

(** C1 as stated fails on a final group shorter than 8: the single bit 1
    is packed as the byte 1, whose most significant bit is 0, and not as
    0x80. *)
Lemma pack_coil_bits_short_group_not_padded :
  ~ (forall bits : list Z, Forall is_bit bits ->
       forall j : nat, (j < List.length (pack_coil_bits bits))%nat ->
         Z.testbit (nth j (pack_coil_bits bits) 0) 7 =
           Z.odd (nth (8 * j) bits 0)) /\
  ~ (forall bits : list Z, Forall is_bit bits ->
       pack_coil_bits bits = pack_coil_bits_padded bits) /\
  pack_coil_bits [1] = [1] /\ pack_coil_bits_padded [1] = [128].
Proof.
  assert (Hone : Forall is_bit [1]) by (repeat constructor; now right).
  repeat split.
  - intros Hclaim. specialize (Hclaim [1] Hone 0%nat ltac:(simpl; lia)).
    discriminate Hclaim.
  - intros Hclaim. specialize (Hclaim [1] Hone). discriminate Hclaim.
Qed.

(** C1, amended: the packing cuts the bits into consecutive groups of at
    most 8 and folds each group as byte = (byte << 1) | bit; the byte count
    is ((n-1)/8)+1; bit [i] of a group of [k] bits lands at position
    [k-1-i] of its byte and the positions from [k] up are zero.  So the
    first bit of a full group is the most significant bit of its byte, and
    a final group of k < 8 bits fills the k low positions, the zeros being
    on the left.  [write_multiple_coils] and the read-coil and
    read-discrete-input responses carry these bytes. *)
Theorem pack_coil_bits_layout (bits : list Z) (Hbits : Forall is_bit bits) :
  let out := pack_coil_bits bits in
  len out = (len bits - 1) / 8 + 1 /\
  (forall j : nat, (j < List.length out)%nat ->
     let group := slice bits (8 * j) (8 * j + 8) in
     let k := List.length group in
     nth j out 0 = fold_bits group /\
     k = Nat.min 8 (List.length bits - 8 * j) /\ (1 <= k)%nat /\
     is_byte (nth j out 0) /\
     (forall i : nat, (i < k)%nat ->
        Z.testbit (nth j out 0) (Z.of_nat (k - 1 - i)) =
          Z.odd (nth (8 * j + i) bits 0)) /\
     (forall p : nat, (k <= p)%nat ->
        Z.testbit (nth j out 0) (Z.of_nat p) = false) /\
     (k = 8%nat ->
        Z.testbit (nth j out 0) 7 = Z.odd (nth (8 * j) bits 0)) /\
     ((k < 8)%nat -> Z.testbit (nth j out 0) 7 = false)) /\
  (forall a : Z, is_u16 a -> 1 <= len bits <= 1968 ->
     write_multiple_coils a bits =
       Ok ([15; a / 256; a mod 256; len bits / 256; len bits mod 256;
            (len bits - 1) / 8 + 1] ++ out)) /\
  (forall (fc addr qty : Z) (request_data : list Z) (signed : signed_arg),
     In fc [1; 2] -> len bits <= 2040 ->
     response fc addr qty request_data (Some bits) signed =
       Ok (Some ([fc; (len bits - 1) / 8 + 1] ++ out))).
Proof.
  cbv zeta. split; [apply pack_coil_bits_byte_count|].
  split; [|split].
  - intros j Hj. unfold slice.
    replace (8 * j + 8 - 8 * j)%nat with 8%nat by lia.
    pose proof (group_bits bits j Hbits) as Hgroup.
    pose proof (group_length bits j) as Hk.
    rewrite (pack_coil_bits_nth bits j Hj).
    rewrite pack_coil_bits_length in Hj.
    set (group := firstn 8 (skipn (8 * j) bits)) in *.
    assert (Htest : forall i : nat, (i < List.length group)%nat ->
              Z.testbit (fold_bits group)
                (Z.of_nat (List.length group - 1 - i)) =
              Z.odd (nth (8 * j + i) bits 0)).
    { intros i Hi. rewrite (fold_bits_testbit group _ Hgroup).
      rewrite (proj2 (Nat.ltb_lt _ _)) by lia.
      replace (List.length group - 1 - (List.length group - 1 - i))%nat
        with i by lia.
      unfold group. rewrite group_nth by lia. reflexivity. }
    assert (Hhigh : forall p : nat, (List.length group <= p)%nat ->
              Z.testbit (fold_bits group) (Z.of_nat p) = false).
    { intros p Hp. rewrite (fold_bits_testbit group _ Hgroup).
      now rewrite (proj2 (Nat.ltb_ge _ _) Hp). }
    repeat split.
    + exact Hk.
    + rewrite Hk. lia_div.
    + apply fold_bits_group_byte; assumption.
    + apply fold_bits_group_byte; assumption.
    + exact Htest.
    + exact Hhigh.
    + intros H8. specialize (Htest 0%nat ltac:(lia)).
      rewrite H8, Nat.add_0_r in Htest. exact Htest.
    + intros H8. apply (Hhigh 7%nat). lia.
  - intros a Ha Hlen. now apply write_multiple_coils_ok.
  - intros fc addr qty request_data signed Hfc Hlen.
    now apply response_read_coils.
Qed.

Lemma pack_coil_bits_layout_witness :
  pack_coil_bits [1; 0; 1; 1; 0; 0; 0; 1; 1; 0; 1] = [177; 5] /\
  Z.testbit 177 7 = true /\ Z.testbit 5 7 = false /\ Z.testbit 5 2 = true.
Proof.
  assert (Hbits : Forall is_bit [1; 0; 1; 1; 0; 0; 0; 1; 1; 0; 1])
    by (repeat constructor; unfold is_bit; lia).
  destruct (pack_coil_bits_layout _ Hbits) as (_ & Hlayout & _).
  destruct (Hlayout 0%nat ltac:(simpl; lia))
    as (_ & _ & _ & _ & _ & _ & Hfull & _).
  destruct (Hlayout 1%nat ltac:(simpl; lia))
    as (_ & _ & _ & _ & Hshort & _ & _ & Hmsb).
  split; [reflexivity|]. split; [|split].
  - apply (Hfull eq_refl).
  - apply (Hmsb ltac:(simpl; lia)).
  - apply (Hshort 0%nat ltac:(simpl; lia)).
Defined.

(** ** The failures of the request encoders *)

Lemma struct_error_not_spec_error :
  ~ InvalidQuantity StructError /\ ~ IllegalValue StructError.
Proof.
  split; [intros [msg [Hmsg _]] | intros Hmsg]; discriminate Hmsg.
Qed.

Lemma write_single_register_ok (a v : Z) (signed : bool) :
  is_u16 a -> fits16 signed v ->
  write_single_register a v signed =
    Ok ([6; a / 256; a mod 256] ++ be16 v).
Proof.
  intros Ha Hv. unfold write_single_register, struct.pack.
  replace (struct.parse (String.append ">BH" (if signed then "h" else "H")))
    with (Some [struct.B; struct.H; code16 signed]) by now destruct signed.
  cbn [struct.pack_all].
  rewrite pack_B by (unfold is_byte, Const.WRITE_SINGLE_REGISTER; lia).
  rewrite (pack_H a Ha).
  rewrite pack_one_ok by (destruct signed; simpl in *; lia).
  replace (struct.size (code16 signed)) with 2%nat by now destruct signed.
  rewrite be_bytes_2. reflexivity.
Qed.

Lemma write_single_register_overflow (a v : Z) (signed : bool) :
  ~ (is_u16 a /\ fits16 signed v) ->
  write_single_register a v signed = Raise StructError.
Proof.
  intros Hn. unfold write_single_register, struct.pack.
  replace (struct.parse (String.append ">BH" (if signed then "h" else "H")))
    with (Some [struct.B; struct.H; code16 signed]) by now destruct signed.
  cbn [struct.pack_all].
  rewrite pack_B by (unfold is_byte, Const.WRITE_SINGLE_REGISTER; lia).
  cbn [bind].
  destruct (struct.pack_one struct.H a) as [ba|ea] eqn:Hpa.
  - cbn [bind]. rewrite pack_one_err; [reflexivity|].
    intros Hv. apply Hn. split.
    + unfold struct.pack_one in Hpa. simpl in Hpa. unfold is_u16.
      destruct (0 <=? a) eqn:H0; [|discriminate].
      destruct (a <=? 65535) eqn:H1; [|discriminate].
      apply Z.leb_le in H0. apply Z.leb_le in H1. lia.
    + destruct signed; simpl in *; lia.
  - unfold struct.pack_one in Hpa.
    destruct ((struct.lo struct.H <=? a) && (a <=? struct.hi struct.H));
      [discriminate|].
    injection Hpa as <-. reflexivity.
Qed.

Lemma write_single_coil_cases (a : Z) (v : pyval) :
  is_u16 a ->
  (exists pdu, write_single_coil a v = Ok pdu) \/
  write_single_coil a v = Raise illegal_coil_value.
Proof.
  intros Ha. unfold write_single_coil.
  destruct (py_in v [PInt 0; PInt 65280; PBool true]); cbn [negb];
    [left | now right].
  assert (Hpack : forall x, is_u16 x ->
            exists pdu, struct.pack ">BHH" [Const.WRITE_SINGLE_COIL; a; x]
                        = Ok pdu).
  { intros x Hx. eexists. apply pack_BHH; auto.
    unfold is_byte, Const.WRITE_SINGLE_COIL. lia. }
  destruct (py_in v [PInt 0; PInt 65280]) eqn:Hin; cbn [negb].
  - apply Hpack. unfold py_in, py_eq in Hin. simpl in Hin.
    rewrite orb_false_r in Hin. apply orb_true_iff in Hin.
    unfold is_u16. destruct Hin as [H|H]; apply Z.eqb_eq in H; lia.
  - destruct (truthy v); apply Hpack; unfold is_u16; simpl; lia.
Qed.

(** C3 as stated fails: a register value outside the 16-bit range of the
    flag makes [struct.pack] raise [struct.error], which is neither
    InvalidQuantity nor IllegalValue. *)
Lemma write_single_register_struct_error :
  ~ (forall r : request, pdu_or_spec_error (encode r)) /\
  ~ (forall (v : Z) (signed : bool),
       exists pdu, write_single_register 0 v signed = Ok pdu) /\
  write_single_register 0 40000 true = Raise StructError.
Proof.
  repeat split.
  - intros Hclaim.
    destruct (Hclaim (WriteSingleRegisterReq 0 40000 true))
      as [[pdu Hpdu] | [e [He [Hq | Hv]]]].
    + discriminate Hpdu.
    + injection He as <-. now apply struct_error_not_spec_error in Hq.
    + injection He as <-. now apply struct_error_not_spec_error in Hv.
  - intros Hclaim. destruct (Hclaim 40000 true) as [pdu Hpdu].
    discriminate Hpdu.
Qed.

(** C3, amended: when the address fits 16 bits, the register values fit
    the 16-bit range of the signed flag and the coil values are bits, every
    request encoder returns a PDU or fails with InvalidQuantity or
    IllegalValue, nothing else; [write_single_register] returns a PDU for
    exactly the register values that fit the 16-bit format the flag
    selects, and raises [struct.error] for the others. *)
Theorem request_encoder_failures (r : request) (Hfits : fits_wire r) :
  pdu_or_spec_error (encode r) /\
  (forall (a v : Z) (signed : bool), is_u16 a ->
     (fits16 signed v ->
        write_single_register a v signed =
          Ok ([6; a / 256; a mod 256] ++ be16 v)) /\
     (~ fits16 signed v ->
        write_single_register a v signed = Raise StructError)).
Proof.
  split.
  - destruct r as [op a q | a v | a v s | a vs | a vs s];
      cbn [encode fits_wire] in *.
    + assert (Hq : 1 <= q <= read_max op \/ ~ (1 <= q <= read_max op)) by lia.
      destruct Hq as [Hq|Hq].
      * left. eexists. now apply read_request_in_range.
      * right. destruct (read_request_out_of_range op a q Hq) as [e [He Hi]].
        exists e. tauto.
    + destruct (write_single_coil_cases a v Hfits) as [Hok|Herr].
      * now left.
      * right. exists illegal_coil_value. split; [exact Herr|].
        right. reflexivity.
    + left. eexists. now apply write_single_register_ok.
    + destruct Hfits as [Ha Hvs].
      assert (Hl : 1 <= len vs <= 1968 \/ ~ (1 <= len vs <= 1968)) by lia.
      destruct Hl as [Hl|Hl].
      * left. eexists. now apply write_multiple_coils_ok.
      * right. eexists. split.
        -- now apply write_multiple_coils_bad_length.
        -- left. apply invalid_quantity_outputs.
    + destruct Hfits as [Ha Hvs].
      assert (Hl : 1 <= len vs <= 123 \/ ~ (1 <= len vs <= 123)) by lia.
      destruct Hl as [Hl|Hl].
      * left. eexists. now apply write_multiple_registers_ok.
      * right. eexists. split.
        -- now apply write_multiple_registers_bad_length.
        -- left. apply invalid_quantity_registers.
  - intros a v signed Ha. split.
    + intros Hv. now apply write_single_register_ok.
    + intros Hv. apply write_single_register_overflow. tauto.
Qed.

Lemma request_encoder_failures_witness :
  fits_wire (WriteSingleRegisterReq 1 (-2) true) /\
  pdu_or_spec_error (encode (WriteSingleRegisterReq 1 (-2) true)) /\
  write_single_register 1 (-2) true = Ok [6; 0; 1; 255; 254] /\
  write_single_register 1 (-2) false = Raise StructError.
Proof.
  assert (Hfits : fits_wire (WriteSingleRegisterReq 1 (-2) true))
    by (simpl; unfold is_u16; lia).
  destruct (request_encoder_failures _ Hfits) as [Hany Hreg].
  split; [exact Hfits|]. split; [exact Hany|]. split.
  - apply (proj1 (Hreg 1 (-2) true ltac:(unfold is_u16; lia))). simpl. lia.
  - apply (proj2 (Hreg 1 (-2) false ltac:(unfold is_u16; lia))). simpl. lia.
Defined.

Lemma string_length_append (s t : string) :
  String.length (String.append s t) = (String.length s + String.length t)%nat.
Proof. induction s as [|c s IH]; simpl; [reflexivity | now rewrite IH]. Qed.

Lemma str_mul_zero_length (n : nat) : String.length (str_mul "0" n) = n.
Proof. induction n as [|n IH]; simpl; [reflexivity | now rewrite IH]. Qed.

Lemma bin_pos_length (p : positive) :
  forall acc : string,
    String.length (bin_pos p acc) = (Pos.size_nat p + String.length acc)%nat.
Proof.
  induction p as [q IH|q IH|]; intros acc; cbn [bin_pos Pos.size_nat].
  - rewrite IH. simpl. lia.
  - rewrite IH. simpl. lia.
  - reflexivity.
Qed.

Lemma size_nat_pow (p : positive) :
  2 ^ Z.of_nat (Pos.size_nat p) <= 2 * Z.pos p.
Proof.
  induction p as [q IH|q IH|]; cbn [Pos.size_nat];
    rewrite ?Nat2Z.inj_succ, ?Z.pow_succ_r by lia;
    [change (Z.pos q~1) with (2 * Z.pos q + 1)
    | change (Z.pos q~0) with (2 * Z.pos q) | simpl]; lia.
Qed.

Lemma int_to_bin_length (n : Z) :
  0 <= n < 2 ^ 32 -> (1 <= String.length (int_to_bin n) <= 32)%nat.
Proof.
  intros Hn. destruct n as [|p|p]; [simpl; lia | | lia].
  cbn [int_to_bin]. rewrite bin_pos_length. simpl String.length.
  pose proof (size_nat_pow p) as Hp.
  assert (Hlt : 2 ^ Z.of_nat (Pos.size_nat p) < 2 ^ 33).
  { change (2 ^ 33) with (2 * 2 ^ 32). lia. }
  apply Z.pow_lt_mono_r_iff in Hlt; [|lia|lia].
  destruct p; cbn [Pos.size_nat] in *; lia.
Qed.

(** The digit string of a 32-bit unsigned integer has exactly 32
    characters. *)
Lemma u32_to_bin_length (n : Z) :
  0 <= n < 2 ^ 32 -> String.length (u32_to_bin n) = 32%nat.
Proof.
  intros Hn. pose proof (int_to_bin_length n Hn) as Hl.
  unfold u32_to_bin, zfill.
  rewrite string_length_append, str_mul_zero_length. lia.
Qed.

Lemma int_base2_zeros (n : nat) (s : string) :
  int_base2 (String.append (str_mul "0" n) s) 0 = int_base2 s 0.
Proof. induction n as [|n IH]; [reflexivity | exact IH]. Qed.

Lemma int_base2_bin_pos (p : positive) :
  forall (acc : string) (x : Z),
    int_base2 (bin_pos p acc) x =
      int_base2 acc (x * 2 ^ Z.of_nat (Pos.size_nat p) + Z.pos p).
Proof.
  induction p as [q IH|q IH|]; intros acc x; cbn [bin_pos Pos.size_nat].
  - rewrite IH. cbn [int_base2]. simpl Ascii.eqb. cbv iota. f_equal.
    rewrite Nat2Z.inj_succ, Z.pow_succ_r by lia.
    change (Z.pos q~1) with (2 * Z.pos q + 1). lia.
  - rewrite IH. cbn [int_base2]. simpl Ascii.eqb. cbv iota. f_equal.
    rewrite Nat2Z.inj_succ, Z.pow_succ_r by lia.
    change (Z.pos q~0) with (2 * Z.pos q). lia.
  - cbn [int_base2]. simpl Ascii.eqb. cbv iota. f_equal.
    change (2 ^ Z.of_nat 1) with 2. lia.
Qed.

(** Reading the digit string back gives the integer. *)
Lemma int_base2_u32_to_bin (n : Z) :
  0 <= n -> int_base2 (u32_to_bin n) 0 = Some n.
Proof.
  intros Hn. unfold u32_to_bin, zfill. rewrite int_base2_zeros.
  destruct n as [|p|p]; [reflexivity | | lia].
  cbn [int_to_bin]. rewrite int_base2_bin_pos. reflexivity.
Qed.

(** [bin_to_float]'s first two steps undo [float_to_bin]'s last two: the
    32 digits of [n] are packed back into the four big-endian bytes of
    [n]. *)
Lemma bin_to_u32_u32_to_bin (n : Z) :
  0 <= n < 2 ^ 32 -> bin_to_u32 (u32_to_bin n) = Ok (struct.be_bytes 4 n).
Proof.
  intros Hn. unfold bin_to_u32.
  pose proof (u32_to_bin_length n Hn) as Hlen.
  destruct (u32_to_bin n) as [|c s] eqn:Hs; [discriminate Hlen|].
  rewrite <- Hs, int_base2_u32_to_bin by lia.
  unfold struct.pack. change (struct.parse "!I") with (Some [struct.I]).
  cbn [struct.pack_all].
  rewrite pack_one_ok by (change (2 ^ 32) with 4294967296 in Hn; simpl; lia).
  reflexivity.
Qed.

(** ** [struct.unpack] undoes [struct.pack] *)

Lemma be_bytes_length (n : nat) (v : Z) :
  List.length (struct.be_bytes n v) = n.
Proof. induction n as [|n IH]; cbn [struct.be_bytes List.length]; congruence. Qed.

Lemma pack_all_length (cs : list struct.code) :
  forall (args : list Z) (pdu : bytes),
    struct.pack_all cs args = Ok pdu -> List.length pdu = struct.calcsize cs.
Proof.
  induction cs as [|c cs IH]; intros [|v args] pdu Hpack;
    cbn [struct.pack_all] in Hpack; try discriminate.
  - injection Hpack as <-. reflexivity.
  - unfold struct.pack_one in Hpack.
    destruct ((struct.lo c <=? v) && (v <=? struct.hi c)); [|discriminate].
    cbn [bind] in Hpack.
    destruct (struct.pack_all cs args) as [r|e] eqn:Hr; [|discriminate].
    cbn [bind] in Hpack. injection Hpack as <-.
    rewrite length_app, be_bytes_length, (IH args r Hr). reflexivity.
Qed.

Lemma be_int_acc (bs : bytes) :
  forall acc : Z,
    fold_left (fun a b => a * 256 + b) bs acc =
      acc * 256 ^ Z.of_nat (List.length bs) + struct.be_int bs.
Proof.
  unfold struct.be_int.
  induction bs as [|b bs IH]; intros acc; cbn [fold_left List.length].
  - simpl. lia.
  - rewrite (IH (acc * 256 + b)), (IH (0 * 256 + b)).
    rewrite Nat2Z.inj_succ, Z.pow_succ_r by lia. ring.
Qed.

Lemma be_int_be_bytes (n : nat) (v : Z) :
  struct.be_int (struct.be_bytes n v) = v mod 256 ^ Z.of_nat n.
Proof.
  induction n as [|n IH].
  - simpl. now rewrite Z.mod_1_r.
  - cbn [struct.be_bytes]. unfold struct.be_int. cbn [fold_left].
    rewrite be_int_acc, be_bytes_length, IH.
    rewrite Nat2Z.inj_succ, Z.pow_succ_r by lia.
    assert (Hpow : 0 < 256 ^ Z.of_nat n) by (apply Z.pow_pos_nonneg; lia).
    rewrite (Z.mul_comm 256), Z.rem_mul_r by lia. lia.
Qed.

Lemma decode_be_bytes (c : struct.code) (v : Z) :
  struct.lo c <= v <= struct.hi c ->
  struct.decode c (struct.be_bytes (struct.size c) v) = v.
Proof.
  intros Hv. unfold struct.decode. rewrite be_int_be_bytes.
  destruct c; cbn [struct.is_signed struct.size andb] in *; simpl in Hv.
  - change (256 ^ Z.of_nat 1) with 256. apply Z.mod_small. lia.
  - change (256 ^ Z.of_nat 2) with 65536. apply Z.mod_small. lia.
  - change (256 ^ Z.of_nat 2) with 65536.
    change (2 ^ (8 * Z.of_nat 2 - 1)) with 32768.
    change (2 ^ (8 * Z.of_nat 2)) with 65536.
    destruct (Z_lt_le_dec v 0) as [Hneg|Hpos].
    + replace (v mod 65536) with (v + 65536)
        by (apply Z.mod_unique with (q := -1); lia).
      rewrite (proj2 (Z.leb_le _ _)) by lia. lia.
    + rewrite Z.mod_small by lia.
      rewrite (proj2 (Z.leb_gt _ _)) by lia. reflexivity.
  - change (256 ^ Z.of_nat 4) with 4294967296. apply Z.mod_small. lia.
Qed.

Lemma unpack_all_pack_all (cs : list struct.code) :
  forall (args : list Z) (pdu : bytes),
    struct.pack_all cs args = Ok pdu -> struct.unpack_all cs pdu = args.
Proof.
  induction cs as [|c cs IH]; intros [|v args] pdu Hpack;
    cbn [struct.pack_all] in Hpack; try discriminate.
  - reflexivity.
  - unfold struct.pack_one in Hpack.
    destruct ((struct.lo c <=? v) && (v <=? struct.hi c)) eqn:Hrange;
      [|discriminate].
    apply andb_true_iff in Hrange. destruct Hrange as [Hl Hh].
    apply Z.leb_le in Hl. apply Z.leb_le in Hh.
    cbn [bind] in Hpack.
    destruct (struct.pack_all cs args) as [r|e] eqn:Hr; [|discriminate].
    cbn [bind] in Hpack. injection Hpack as <-.
    cbn [struct.unpack_all].
    pose proof (be_bytes_length (struct.size c) v) as Hlen.
    rewrite firstn_app, skipn_app, Hlen, Nat.sub_diag.
    rewrite <- Hlen at 1. rewrite firstn_all.
    rewrite <- Hlen at 2. rewrite skipn_all.
    cbn [firstn skipn app]. rewrite app_nil_r.
    rewrite decode_be_bytes by lia. f_equal. now apply IH.
Qed.

(** Whatever [struct.pack] returns, [struct.unpack] with the same format
    reads back as the arguments. *)
Lemma unpack_pack (fmt : string) (args : list Z) (pdu : bytes) :
  struct.pack fmt args = Ok pdu -> struct.unpack fmt pdu = Ok args.
Proof.
  unfold struct.pack, struct.unpack.
  destruct (struct.parse fmt) as [cs|]; [|discriminate].
  intros Hpack. rewrite (pack_all_length cs args pdu Hpack), Nat.eqb_refl.
  now rewrite (unpack_all_pack_all cs args pdu Hpack).
Qed.

Lemma pack_one_inv (c : struct.code) (v : Z) (b : bytes) :
  struct.pack_one c v = Ok b ->
  struct.lo c <= v <= struct.hi c /\ b = struct.be_bytes (struct.size c) v.
Proof.
  unfold struct.pack_one.
  destruct ((struct.lo c <=? v) && (v <=? struct.hi c)) eqn:Hrange;
    [|discriminate].
  apply andb_true_iff in Hrange. destruct Hrange as [Hl Hh].
  apply Z.leb_le in Hl. apply Z.leb_le in Hh.
  intros [= <-]. split; [lia | reflexivity].
Qed.

Lemma pack_all_cons_inv (c : struct.code) (cs : list struct.code) (v : Z)
  (args : list Z) (pdu : bytes) :
  struct.pack_all (c :: cs) (v :: args) = Ok pdu ->
  struct.lo c <= v <= struct.hi c /\
  exists r, struct.pack_all cs args = Ok r /\
            pdu = struct.be_bytes (struct.size c) v ++ r.
Proof.
  cbn [struct.pack_all]. intros Hpack.
  destruct (struct.pack_one c v) as [b|e] eqn:Hb; [|discriminate].
  destruct (pack_one_inv c v b Hb) as [Hv ->]. cbn [bind] in Hpack.
  destruct (struct.pack_all cs args) as [r|e] eqn:Hr; [|discriminate].
  cbn [bind] in Hpack. injection Hpack as <-.
  split; [exact Hv|]. now exists r.
Qed.

Lemma pack_all_error (cs : list struct.code) :
  forall (args : list Z) (e : exn),
    struct.pack_all cs args = Raise e -> e = StructError.
Proof.
  induction cs as [|c cs IH]; intros [|v args] e Hpack;
    cbn [struct.pack_all] in Hpack; try congruence.
  unfold struct.pack_one in Hpack.
  destruct ((struct.lo c <=? v) && (v <=? struct.hi c)); cbn [bind] in Hpack;
    [|congruence].
  destruct (struct.pack_all cs args) as [r|e'] eqn:Hr; cbn [bind] in Hpack;
    [discriminate|].
  injection Hpack as <-. now apply (IH args).
Qed.

Lemma pack_error (fmt : string) (args : list Z) (e : exn) :
  struct.pack fmt args = Raise e -> e = StructError.
Proof.
  unfold struct.pack. destruct (struct.parse fmt) as [cs|]; [|congruence].
  apply pack_all_error.
Qed.

Lemma pack_all_ranges (cs : list struct.code) :
  forall (args : list Z) (pdu : bytes),
    struct.pack_all cs args = Ok pdu ->
    Forall2 (fun c v => struct.lo c <= v <= struct.hi c) cs args.
Proof.
  induction cs as [|c cs IH]; intros [|v args] pdu Hpack;
    try (cbn [struct.pack_all] in Hpack; discriminate).
  - constructor.
  - destruct (pack_all_cons_inv c cs v args pdu Hpack) as [Hv [r [Hr _]]].
    constructor; [exact Hv | now apply (IH args r)].
Qed.

Lemma pack_all_length_mismatch (cs : list struct.code) :
  forall args : list Z,
    List.length cs <> List.length args ->
    struct.pack_all cs args = Raise StructError.
Proof.
  intros args Hlen.
  destruct (struct.pack_all cs args) as [pdu|e] eqn:Hpack.
  - apply pack_all_ranges in Hpack. apply Forall2_length in Hpack.
    contradiction.
  - now rewrite (pack_all_error cs args e Hpack).
Qed.

Lemma calcsize_app (cs1 cs2 : list struct.code) :
  struct.calcsize (cs1 ++ cs2) =
    (struct.calcsize cs1 + struct.calcsize cs2)%nat.
Proof.
  unfold struct.calcsize.
  induction cs1 as [|c cs1 IH]; [reflexivity|].
  cbn [app fold_right]. rewrite IH. lia.
Qed.

Lemma calcsize_repeat (c : struct.code) (n : nat) :
  struct.calcsize (repeat c n) = (struct.size c * n)%nat.
Proof.
  unfold struct.calcsize.
  induction n as [|n IH]; [simpl; lia|].
  cbn [repeat fold_right]. rewrite IH. lia.
Qed.

(** A PDU whose format starts with ['B']: its first byte is the first
    argument and its length is that of the format. *)
Lemma pack_shape (fmt : string) (cs : list struct.code) (c : Z)
  (args : list Z) (pdu : bytes) :
  struct.parse fmt = Some (struct.B :: cs) ->
  struct.pack fmt (c :: args) = Ok pdu ->
  hd 0 pdu = c /\ List.length pdu = S (struct.calcsize cs) /\ is_byte c.
Proof.
  intros Hfmt Hpack. unfold struct.pack in Hpack. rewrite Hfmt in Hpack.
  pose proof (pack_all_length _ _ _ Hpack) as Hlen.
  destruct (pack_all_cons_inv _ _ _ _ _ Hpack) as [Hc [r [_ ->]]].
  simpl in Hc. rewrite be_bytes_1, Z.mod_small by lia.
  repeat split; try assumption; unfold is_byte; lia.
Qed.

Lemma guard_false (lo hi x : Z) :
  negb ((lo <=? x) && (x <=? hi)) = false -> lo <= x <= hi.
Proof.
  intros Hg. apply negb_false_iff, andb_true_iff in Hg.
  destruct Hg as [Hl Hh]. apply Z.leb_le in Hl. apply Z.leb_le in Hh. lia.
Qed.

Lemma read_request_unfold (op : read_op) (a q : Z) :
  read_request op a q =
    if negb ((1 <=? q) && (q <=? read_max op))
    then read_request op a q
    else struct.pack ">BHH" [read_code op; a; q].
Proof.
  destruct (negb ((1 <=? q) && (q <=? read_max op))) eqn:Hg; [reflexivity|].
  destruct op; simpl in Hg; simpl read_request;
    [unfold read_coils | unfold read_discrete_inputs
    | unfold read_holding_registers | unfold read_input_registers];
    rewrite Hg; reflexivity.
Qed.

Lemma read_request_ok_inv (op : read_op) (a q : Z) (pdu : bytes) :
  read_request op a q = Ok pdu ->
  1 <= q <= read_max op /\
  struct.pack ">BHH" [read_code op; a; q] = Ok pdu.
Proof.
  intros Hok.
  destruct (negb ((1 <=? q) && (q <=? read_max op))) eqn:Hg.
  - exfalso. apply negb_true_iff in Hg.
    assert (Hq : ~ (1 <= q <= read_max op)).
    { intros [H1 H2]. apply Z.leb_le in H1. apply Z.leb_le in H2.
      rewrite H1, H2 in Hg. discriminate Hg. }
    destruct (read_request_out_of_range op a q Hq) as [e [He _]].
    congruence.
  - split; [now apply guard_false|].
    rewrite read_request_unfold, Hg in Hok. exact Hok.
Qed.

Lemma write_single_coil_ok_inv (a : Z) (v : pyval) (pdu : bytes) :
  write_single_coil a v = Ok pdu ->
  exists x : Z,
    struct.pack ">BHH" [5; a; x] = Ok pdu /\
    ((x = 0 /\ as_int v = 0) \/
     (x = 65280 /\ (as_int v = 1 \/ as_int v = 65280))).
Proof.
  unfold write_single_coil, py_in, py_eq. cbn [existsb as_int].
  rewrite !orb_false_r.
  destruct (Z.eqb_spec (as_int v) 0) as [H0|H0].
  - cbn [orb negb]. rewrite H0. intros Hpack. exists 0. split; [exact Hpack|].
    now left.
  - destruct (Z.eqb_spec (as_int v) 65280) as [Hff|Hff].
    + cbn [orb negb]. rewrite Hff. intros Hpack. exists 65280.
      split; [exact Hpack|]. right. split; [reflexivity | now right].
    + destruct (Z.eqb_spec (as_int v) 1) as [H1|H1]; cbn [orb negb];
        [|discriminate].
      unfold truthy. rewrite (proj2 (Z.eqb_neq _ _) H0). cbn [negb as_int].
      intros Hpack. exists 65280. split; [exact Hpack|].
      right. split; [reflexivity | now left].
Qed.

Lemma write_multiple_coils_ok_inv (a : Z) (vs : list Z) (pdu : bytes) :
  write_multiple_coils a vs = Ok pdu ->
  1 <= len vs <= 1968 /\
  struct.pack
    (String.append ">BHHB" (str_mul "B" (List.length (pack_coil_bits vs))))
    ([15; a; len vs; (len vs - 1) / 8 + 1] ++ pack_coil_bits vs) = Ok pdu.
Proof.
  unfold write_multiple_coils.
  destruct (negb ((1 <=? len vs) && (len vs <=? 1968))) eqn:Hg;
    [discriminate|].
  intros Hpack. split; [now apply guard_false | exact Hpack].
Qed.

Lemma write_multiple_registers_ok_inv (a : Z) (vs : list Z) (s : bool)
  (pdu : bytes) :
  write_multiple_registers a vs s = Ok pdu ->
  1 <= len vs <= 123 /\
  struct.pack
    (String.append ">BHHB" (str_mul (if s then "h" else "H") (List.length vs)))
    ([16; a; len vs; len vs * 2] ++ vs) = Ok pdu.
Proof.
  unfold write_multiple_registers.
  destruct (negb ((1 <=? len vs) && (len vs <=? 123))) eqn:Hg;
    [discriminate|].
  intros Hpack. split; [now apply guard_false | exact Hpack].
Qed.

Lemma parse_bulk_fmt (s : string) (c : struct.code) (n : nat) :
  struct.parse_codes s = Some [c] ->
  struct.parse (String.append ">BHHB" (str_mul s n)) =
    Some (struct.B :: [struct.H; struct.H; struct.B] ++ repeat c n).
Proof.
  intros Hs.
  apply (parse_app ">BHHB" _ [struct.B; struct.H; struct.H; struct.B]);
    [reflexivity | now apply parse_codes_mul].
Qed.

Lemma parse_register_fmt (s : bool) :
  struct.parse (String.append ">BH" (if s then "h" else "H")) =
    Some [struct.B; struct.H; code16 s].
Proof. now destruct s. Qed.

(** ** The shape of a request PDU *)

(** X6: whenever a request encoder returns a PDU, its first byte is the
    function code of the request, its length is 5 for the reads and the
    single writes, 6 + ceil(n/8) for n coils and 6 + 2n for n registers,
    never more than 252 bytes, and it holds bytes only. *)
Theorem request_pdu_shape (r : request) (pdu : bytes)
  (Hok : encode r = Ok pdu) :
  hd 0 pdu = request_code r /\
  List.length pdu = request_length r /\
  (List.length pdu <= 252)%nat /\
  Forall is_byte pdu.
Proof.
  destruct r as [op a q | a v | a v s | a vs | a vs s];
    cbn [encode request_code request_length] in *.
  - destruct (read_request_ok_inv op a q pdu Hok) as [_ Hpack].
    destruct (pack_shape ">BHH" [struct.H; struct.H] _ _ _ eq_refl Hpack)
      as (Hhd & Hlen & _).
    change (struct.calcsize [struct.H; struct.H]) with 4%nat in Hlen.
    repeat split; try assumption; [lia|].
    now apply (pack_bytes_in_range _ _ _ Hpack).
  - destruct (write_single_coil_ok_inv a v pdu Hok) as [x [Hpack _]].
    destruct (pack_shape ">BHH" [struct.H; struct.H] _ _ _ eq_refl Hpack)
      as (Hhd & Hlen & _).
    change (struct.calcsize [struct.H; struct.H]) with 4%nat in Hlen.
    repeat split; try assumption; [lia|].
    now apply (pack_bytes_in_range _ _ _ Hpack).
  - unfold write_single_register in Hok.
    destruct (pack_shape _ [struct.H; code16 s] _ _ _
                (parse_register_fmt s) Hok) as (Hhd & Hlen & _).
    replace (struct.calcsize [struct.H; code16 s]) with 4%nat in Hlen
      by now destruct s.
    repeat split; try assumption; [lia|].
    now apply (pack_bytes_in_range _ _ _ Hok).
  - destruct (write_multiple_coils_ok_inv a vs pdu Hok) as [Hn Hpack].
    cbn [app] in Hpack.
    destruct (pack_shape _ _ _ _ _
                (parse_bulk_fmt "B" struct.B _ eq_refl) Hpack)
      as (Hhd & Hlen & _).
    rewrite calcsize_app, calcsize_repeat, pack_coil_bits_length in Hlen.
    change (struct.calcsize [struct.H; struct.H; struct.B]) with 5%nat in Hlen.
    cbn [struct.size] in Hlen. unfold len in Hn.
    repeat split; try assumption; [lia | lia_div |].
    now apply (pack_bytes_in_range _ _ _ Hpack).
  - destruct (write_multiple_registers_ok_inv a vs s pdu Hok) as [Hn Hpack].
    cbn [app] in Hpack.
    assert (Hfmt : struct.parse_codes (if s then "h" else "H")
                   = Some [code16 s]) by now destruct s.
    destruct (pack_shape _ _ _ _ _ (parse_bulk_fmt _ _ _ Hfmt) Hpack)
      as (Hhd & Hlen & _).
    rewrite calcsize_app, calcsize_repeat in Hlen.
    change (struct.calcsize [struct.H; struct.H; struct.B]) with 5%nat in Hlen.
    replace (struct.size (code16 s)) with 2%nat in Hlen by now destruct s.
    unfold len in Hn.
    repeat split; try assumption; [lia|].
    now apply (pack_bytes_in_range _ _ _ Hpack).
Qed.

Lemma request_pdu_shape_witness :
  let pdu := [15; 0; 7; 0; 9; 2; 177; 1] in
  hd 0 pdu = 15 /\ List.length pdu = 8%nat /\ (List.length pdu <= 252)%nat /\
  Forall is_byte pdu.
Proof.
  exact (request_pdu_shape
           (WriteMultipleCoilsReq 7 [1; 0; 1; 1; 0; 0; 0; 1; 1])
           [15; 0; 7; 0; 9; 2; 177; 1] eq_refl).
Defined.

(** X7: a request PDU loses nothing: unpacking it with the format it was
    packed with gives back the function code, the address and the
    quantity or values the encoder was called with. *)
Theorem request_decodes (a : Z) (pdu : bytes) :
  (forall (op : read_op) (q : Z),
     read_request op a q = Ok pdu ->
     struct.unpack ">BHH" pdu = Ok [read_code op; a; q]) /\
  (forall (v : Z) (s : bool),
     write_single_register a v s = Ok pdu ->
     struct.unpack (String.append ">BH" (if s then "h" else "H")) pdu =
       Ok [6; a; v]) /\
  (forall (vs : list Z) (s : bool),
     write_multiple_registers a vs s = Ok pdu ->
     struct.unpack
       (String.append ">BHHB"
          (str_mul (if s then "h" else "H") (List.length vs))) pdu =
       Ok ([16; a; len vs; len vs * 2] ++ vs)) /\
  (forall vs : list Z,
     write_multiple_coils a vs = Ok pdu ->
     struct.unpack
       (String.append ">BHHB"
          (str_mul "B" (List.length (pack_coil_bits vs)))) pdu =
       Ok ([15; a; len vs; (len vs - 1) / 8 + 1] ++ pack_coil_bits vs)).
Proof.
  repeat split.
  - intros op q Hok. apply unpack_pack.
    now destruct (read_request_ok_inv op a q pdu Hok).
  - intros v s Hok. now apply unpack_pack.
  - intros vs s Hok. apply unpack_pack.
    now destruct (write_multiple_registers_ok_inv a vs s pdu Hok).
  - intros vs Hok. apply unpack_pack.
    now destruct (write_multiple_coils_ok_inv a vs pdu Hok).
Qed.

Lemma request_decodes_witness :
  struct.unpack ">BHh" [6; 0; 1; 255; 254] = Ok [6; 1; -2].
Proof.
  destruct (request_decodes 1 [6; 0; 1; 255; 254]) as (_ & Hreg & _).
  exact (Hreg (-2) true eq_refl).
Defined.

(** ** Exact success conditions *)

(** X19: a read request returns a PDU exactly when the quantity is in its
    range and the address fits 16 bits; with a quantity in range and an
    address that does not fit, it raises [struct.error]. *)
Theorem read_request_success (op : read_op) (a q : Z) :
  ((exists pdu, read_request op a q = Ok pdu) <->
   (1 <= q <= read_max op /\ is_u16 a)) /\
  (1 <= q <= read_max op -> ~ is_u16 a ->
   read_request op a q = Raise StructError).
Proof.
  assert (Hinv : forall pdu, read_request op a q = Ok pdu ->
                 1 <= q <= read_max op /\ is_u16 a).
  { intros pdu Hok. destruct (read_request_ok_inv op a q pdu Hok) as [Hq Hp].
    split; [exact Hq|]. unfold struct.pack in Hp.
    change (struct.parse ">BHH") with (Some [struct.B; struct.H; struct.H])
      in Hp.
    apply pack_all_ranges in Hp. inversion Hp as [|? ? ? ? _ Hp']. subst.
    inversion Hp' as [|? ? ? ? Ha _]. subst. simpl in Ha. unfold is_u16. lia. }
  split; [split|].
  - intros [pdu Hok]. now apply (Hinv pdu).
  - intros [Hq Ha]. eexists. now apply read_request_in_range.
  - intros Hq Ha. rewrite read_request_unfold.
    rewrite (proj2 (Z.leb_le 1 q)), (proj2 (Z.leb_le q _)) by lia.
    cbn [andb negb]. apply pack_BHH_bad_address; [|exact Ha].
    unfold is_byte. destruct op; simpl; lia.
Qed.

Lemma read_request_success_witness :
  read_request ReadInputRegisters 65536 125 = Raise StructError.
Proof.
  apply (proj2 (read_request_success ReadInputRegisters 65536 125)).
  - simpl. lia.
  - unfold is_u16. lia.
Defined.

Lemma Forall2_repeat_l {A B : Type} (P : A -> B -> Prop) (c : A) (n : nat) :
  forall l : list B, Forall2 P (repeat c n) l -> Forall (P c) l.
Proof.
  induction n as [|n IH]; intros l H; inversion H; subst; constructor; auto.
Qed.

(** X20: [write_multiple_registers] returns a PDU exactly when there are 1
    to 123 values, the address fits 16 bits and every value fits the
    16-bit range of the flag; with a valid length and anything that does
    not fit, it raises [struct.error]. *)
Theorem write_multiple_registers_success (a : Z) (vs : list Z) (s : bool) :
  ((exists pdu, write_multiple_registers a vs s = Ok pdu) <->
   (1 <= len vs <= 123 /\ is_u16 a /\ Forall (fits16 s) vs)) /\
  (1 <= len vs <= 123 -> ~ (is_u16 a /\ Forall (fits16 s) vs) ->
   write_multiple_registers a vs s = Raise StructError).
Proof.
  assert (Hinv : forall pdu, write_multiple_registers a vs s = Ok pdu ->
                 1 <= len vs <= 123 /\ is_u16 a /\ Forall (fits16 s) vs).
  { intros pdu Hok.
    destruct (write_multiple_registers_ok_inv a vs s pdu Hok) as [Hn Hp].
    split; [exact Hn|]. unfold struct.pack in Hp.
    assert (Hfmt : struct.parse_codes (if s then "h" else "H")
                   = Some [code16 s]) by now destruct s.
    rewrite (parse_bulk_fmt _ _ (List.length vs) Hfmt) in Hp.
    apply pack_all_ranges in Hp. cbn [app] in Hp.
    inversion Hp as [|? ? ? ? _ Hp1]. subst.
    inversion Hp1 as [|? ? ? ? Ha Hp2]. subst.
    inversion Hp2 as [|? ? ? ? _ Hp3]. subst.
    inversion Hp3 as [|? ? ? ? _ Hp4]. subst.
    split; [simpl in Ha; unfold is_u16; lia|].
    apply Forall2_repeat_l in Hp4.
    eapply Forall_impl; [|exact Hp4].
    intros v Hv. destruct s; simpl in *; lia. }
  split; [split|].
  - intros [pdu Hok]. now apply (Hinv pdu).
  - intros (Hn & Ha & Hvs). eexists.
    now apply write_multiple_registers_ok.
  - intros Hn Hbad.
    destruct (write_multiple_registers a vs s) as [pdu|e] eqn:Hres.
    + exfalso. apply Hbad. now destruct (Hinv pdu eq_refl) as (_ & Ha & Hvs).
    + f_equal. unfold write_multiple_registers in Hres.
      rewrite (proj2 (Z.leb_le 1 _)), (proj2 (Z.leb_le _ 123)) in Hres by lia.
      cbn [andb negb] in Hres. now apply pack_error in Hres.
Qed.

Lemma write_multiple_registers_success_witness :
  write_multiple_registers 0 [1; 40000] true = Raise StructError.
Proof.
  apply (proj2 (write_multiple_registers_success 0 [1; 40000] true)).
  - unfold len. simpl. lia.
  - intros [_ Hvs]. inversion Hvs as [|? ? _ Hvs']. subst.
    inversion Hvs' as [|? ? H40000 _]. subst. simpl in H40000. lia.
Defined.

(** ** Requests, acknowledgements and their validation *)

Lemma pack_BHH_inv (c a q : Z) (pdu : bytes) :
  struct.pack ">BHH" [c; a; q] = Ok pdu ->
  is_byte c /\ is_u16 a /\ is_u16 q /\
  pdu = [c; a / 256; a mod 256; q / 256; q mod 256].
Proof.
  intros Hpack. pose proof Hpack as Hr. unfold struct.pack in Hr.
  change (struct.parse ">BHH") with (Some [struct.B; struct.H; struct.H]) in Hr.
  apply pack_all_ranges in Hr.
  inversion Hr as [|? ? ? ? Hc Hr1]. subst.
  inversion Hr1 as [|? ? ? ? Ha Hr2]. subst.
  inversion Hr2 as [|? ? ? ? Hq _]. subst. simpl in Hc, Ha, Hq.
  assert (Hc' : is_byte c) by (unfold is_byte; lia).
  assert (Ha' : is_u16 a) by (unfold is_u16; lia).
  assert (Hq' : is_u16 q) by (unfold is_u16; lia).
  rewrite (pack_BHH c a q Hc' Ha' Hq') in Hpack. injection Hpack as <-.
  split; [exact Hc'|]. split; [exact Ha'|]. split; [exact Hq' | reflexivity].
Qed.

Lemma be16_shift (v : Z) : be16 (v + 65536) = be16 v.
Proof.
  unfold be16. f_equal; [|f_equal]; Z.div_mod_to_equations; lia.
Qed.

Lemma resp_field_be16 (s : bool) (v : Z) :
  fits16 s v -> resp_field s ((v / 256) mod 256) (v mod 256) = v.
Proof.
  intros Hv. unfold resp_field.
  replace (256 * ((v / 256) mod 256) + v mod 256) with (v mod 65536)
    by (change 65536 with (256 * 256); rewrite Z.rem_mul_r by lia; lia).
  destruct s; simpl in Hv; cbn [andb].
  - destruct (Z_lt_le_dec v 0) as [Hneg|Hpos].
    + replace (v mod 65536) with (v + 65536)
        by (apply Z.mod_unique with (q := -1); lia).
      rewrite (proj2 (Z.leb_le _ _)) by lia. lia.
    + rewrite Z.mod_small by lia.
      rewrite (proj2 (Z.leb_gt _ _)) by lia. reflexivity.
  - apply Z.mod_small. lia.
Qed.

Lemma write_single_register_ok_inv (a v : Z) (s : bool) (pdu : bytes) :
  write_single_register a v s = Ok pdu ->
  is_u16 a /\ fits16 s v /\ pdu = [6; a / 256; a mod 256] ++ be16 v.
Proof.
  intros Hok.
  assert (Hdec : (is_u16 a /\ fits16 s v) \/ ~ (is_u16 a /\ fits16 s v))
    by (unfold is_u16; destruct s; simpl; lia).
  destruct Hdec as [[Ha Hv]|Hbad].
  - rewrite (write_single_register_ok a v s Ha Hv) in Hok.
    injection Hok as <-. split; [exact Ha|]. split; [exact Hv | reflexivity].
  - rewrite (write_single_register_overflow a v s Hbad) in Hok.
    discriminate Hok.
Qed.

Lemma write_single_coil_ok_pdu (a : Z) (v : pyval) (pdu : bytes) :
  write_single_coil a v = Ok pdu ->
  is_u16 a /\
  ((as_int v = 0 /\ pdu = [5; a / 256; a mod 256; 0; 0]) \/
   ((as_int v = 1 \/ as_int v = 65280) /\
    pdu = [5; a / 256; a mod 256; 255; 0])).
Proof.
  intros Hok.
  destruct (write_single_coil_ok_inv a v pdu Hok) as [x [Hpack Hx]].
  destruct (pack_BHH_inv 5 a x pdu Hpack) as (_ & Ha & _ & ->).
  split; [exact Ha|].
  destruct Hx as [[-> Hv]|[-> Hv]]; [left | right]; now split.
Qed.

(** X8: the signed flag of [write_single_register] changes the accepted
    range, not the bytes: a value in 0..32767 gives the same result under
    both flags, and a negative value packed as signed gives the result of
    its two's complement [v + 65536] packed as unsigned. *)
Theorem write_single_register_twos_complement (a v : Z) :
  (0 <= v <= 32767 ->
   write_single_register a v true = write_single_register a v false) /\
  (-32768 <= v < 0 ->
   write_single_register a v true =
     write_single_register a (v + 65536) false).
Proof.
  assert (Hdec : is_u16 a \/ ~ is_u16 a) by (unfold is_u16; lia).
  split; intros Hv; destruct Hdec as [Ha|Ha].
  - now rewrite !write_single_register_ok by (simpl; auto; lia).
  - now rewrite !write_single_register_overflow by tauto.
  - rewrite !write_single_register_ok by (simpl; auto; lia).
    now rewrite be16_shift.
  - now rewrite !write_single_register_overflow by tauto.
Qed.

Lemma write_single_register_twos_complement_witness :
  write_single_register 1 (-2) true = write_single_register 1 65534 false.
Proof.
  apply (proj2 (write_single_register_twos_complement 1 (-2))). lia.
Defined.

(** X18: a single-coil write puts only the two canonical values on the
    wire: [write_single_coil] returns a PDU exactly when the address fits
    16 bits and the value equals 0, 1 or 0xFF00, and the PDU then carries
    00 00 (the value was 0 or [False]) or FF 00 (the value was 1, [True]
    or 0xFF00). *)
Theorem write_single_coil_wire_value (a : Z) (v : pyval) (pdu : bytes) :
  write_single_coil a v = Ok pdu <->
  is_u16 a /\
  ((as_int v = 0 /\ pdu = [5; a / 256; a mod 256; 0x00; 0x00]) \/
   ((as_int v = 1 \/ as_int v = 0xFF00) /\
    pdu = [5; a / 256; a mod 256; 0xFF; 0x00])).
Proof.
  split; [now apply write_single_coil_ok_pdu|].
  assert (Hcode : is_byte 5) by (unfold is_byte; lia).
  intros [Ha [[Hv ->]|[Hv ->]]];
    unfold write_single_coil, py_in, py_eq, truthy; cbn [existsb as_int].
  - rewrite Hv. cbn [Z.eqb orb negb]. rewrite Hv.
    apply (pack_BHH 5 a 0 Hcode Ha). unfold is_u16. lia.
  - destruct Hv as [Hv|Hv]; rewrite Hv; cbn [Z.eqb Pos.eqb orb negb as_int];
      rewrite ?Hv;
      apply (pack_BHH 5 a 65280 Hcode Ha); unfold is_u16; lia.
Qed.

Lemma write_single_coil_wire_value_witness :
  is_u16 258 /\
  ((as_int (PBool true) = 0 /\ [5; 1; 2; 255; 0] = [5; 1; 2; 0; 0]) \/
   ((as_int (PBool true) = 1 \/ as_int (PBool true) = 0xFF00) /\
    [5; 1; 2; 255; 0] = [5; 1; 2; 255; 0])).
Proof.
  exact (proj1 (write_single_coil_wire_value 258 (PBool true)
                  [5; 1; 2; 255; 0]) eq_refl).
Defined.

(** X9: a successful [write_single_register] request, without its function
    code, is an acknowledgement that [validate_resp_data] accepts for the
    same address, value and signed flag. *)
Theorem write_single_register_validates (a v : Z) (s : bool)
  (quantity : option Z) (pdu : bytes)
  (Hok : write_single_register a v s = Ok pdu) :
  validate_resp_data (tl pdu) 6 a (Some v) quantity s = Ok true.
Proof.
  destruct (write_single_register_ok_inv a v s pdu Hok) as (Ha & Hv & ->).
  cbn [app tl]. unfold be16. rewrite validate_resp_data_4.
  change (mem 6 [5; 6]) with true. cbv iota.
  unfold resp_address. rewrite be16_div_mod, Z.eqb_refl.
  rewrite (resp_field_be16 s v Hv). cbn [opt_eq andb].
  now rewrite Z.eqb_refl.
Qed.

Lemma write_single_register_validates_witness :
  validate_resp_data [0; 1; 255; 254] 6 1 (Some (-2)) None true = Ok true.
Proof.
  exact (write_single_register_validates 1 (-2) true None
           [6; 0; 1; 255; 254] eq_refl).
Defined.

(** X10: the acknowledgement of a coil switched on carries FF 00, which
    [validate_resp_data] decodes as 0xFF00 only with [signed] false; with
    [signed] true (the default) it decodes as -256, so the same
    acknowledgement is rejected for the expected value 0xFF00. *)
Theorem coil_on_ack_needs_unsigned (a : Z) (quantity : option Z) (pdu : bytes)
  (Hok : write_single_coil a (PBool true) = Ok pdu) :
  validate_resp_data (tl pdu) 5 a (Some 0xFF00) quantity false = Ok true /\
  validate_resp_data (tl pdu) 5 a (Some 0xFF00) quantity true = Ok false /\
  validate_resp_data (tl pdu) 5 a (Some (-256)) quantity true = Ok true.
Proof.
  destruct (write_single_coil_ok_pdu a (PBool true) pdu Hok)
    as [Ha [[Hv _]|[_ ->]]]; [discriminate Hv|].
  cbn [tl]. rewrite !validate_resp_data_4.
  change (mem 5 [5; 6]) with true. cbv iota.
  unfold resp_address. rewrite be16_div_mod, Z.eqb_refl.
  repeat split.
Qed.

Lemma coil_on_ack_needs_unsigned_witness :
  validate_resp_data [0; 9; 255; 0] 5 9 (Some 0xFF00) None true = Ok false.
Proof.
  exact (proj1 (proj2 (coil_on_ack_needs_unsigned 9 None [5; 0; 9; 255; 0]
                         eq_refl))).
Defined.

(** X11: [validate_resp_data] never answers true when the expected value
    and quantity are both left at their default [None]; for the single
    writes (5, 6) the quantity argument plays no part, and for the bulk
    writes (15, 16) the value argument plays no part. *)
Theorem validate_resp_data_expectations (data : bytes)
  (function_code address : Z) (signed : bool) :
  validate_resp_data data function_code address None None signed <> Ok true /\
  (In function_code [5; 6] ->
   forall (value quantity quantity' : option Z),
     validate_resp_data data function_code address value quantity signed =
     validate_resp_data data function_code address value quantity' signed) /\
  (In function_code [15; 16] ->
   forall (value value' quantity : option Z),
     validate_resp_data data function_code address value quantity signed =
     validate_resp_data data function_code address value' quantity signed).
Proof.
  split; [|split].
  - assert (Hdec : In function_code write_codes \/
                   ~ In function_code write_codes).
    { destruct (in_dec Z.eq_dec function_code write_codes); tauto. }
    assert (Hlen : List.length data = 4%nat \/ List.length data <> 4%nat)
      by lia.
    destruct Hdec as [Hin|Hout].
    + destruct Hlen as [H4|Hn4].
      * destruct (length_4 data H4) as (b0 & b1 & b2 & b3 & ->).
        rewrite validate_resp_data_4. cbn [opt_eq]. rewrite andb_false_r.
        now destruct (mem function_code [5; 6]),
                     (mem function_code [15; 16]).
      * now rewrite (validate_resp_data_bad_length data _ _ _ _ _ Hin Hn4).
    + now rewrite (validate_resp_data_other data _ _ _ _ _ Hout).
  - intros Hfc value quantity quantity'. unfold validate_resp_data.
    change [Const.WRITE_SINGLE_COIL; Const.WRITE_SINGLE_REGISTER] with [5; 6].
    now rewrite (mem_true _ _ Hfc).
  - intros Hfc value value' quantity. unfold validate_resp_data.
    change [Const.WRITE_SINGLE_COIL; Const.WRITE_SINGLE_REGISTER] with [5; 6].
    change [Const.WRITE_MULTIPLE_COILS; Const.WRITE_MULTIPLE_REGISTERS]
      with [15; 16].
    assert (Hn : ~ In function_code [5; 6]) by (simpl in *; lia).
    now rewrite (mem_false _ _ Hn), (mem_true _ _ Hfc).
Qed.

Lemma validate_resp_data_expectations_witness :
  validate_resp_data [0; 1; 0; 2] 16 1 (Some 7) (Some 2) false =
  validate_resp_data [0; 1; 0; 2] 16 1 None (Some 2) false.
Proof.
  apply (proj2 (proj2 (validate_resp_data_expectations [0; 1; 0; 2] 16 1
                         false))).
  simpl. lia.
Defined.

(** ** The write branches of [response] *)

Lemma response_single (fc a q : Z) (d : list Z) (vl : option (list Z))
  (sg : signed_arg) :
  In fc [5; 6] ->
  response fc a q d vl sg =
    (pdu <- struct.pack ">BHBB" ([fc; a] ++ d) ;; Ok (Some pdu)).
Proof.
  intros Hfc. unfold response.
  change [Const.READ_COILS; Const.READ_DISCRETE_INPUTS] with [1; 2].
  change [Const.READ_HOLDING_REGISTERS; Const.READ_INPUT_REGISTER] with [3; 4].
  change [Const.WRITE_SINGLE_COIL; Const.WRITE_SINGLE_REGISTER] with [5; 6].
  rewrite (mem_false fc [1; 2]) by (simpl in *; lia).
  rewrite (mem_false fc [3; 4]) by (simpl in *; lia).
  now rewrite (mem_true _ _ Hfc).
Qed.

Lemma response_bulk (fc a q : Z) (d : list Z) (vl : option (list Z))
  (sg : signed_arg) :
  In fc [15; 16] ->
  response fc a q d vl sg =
    (pdu <- struct.pack ">BHH" [fc; a; q] ;; Ok (Some pdu)).
Proof.
  intros Hfc. unfold response.
  change [Const.READ_COILS; Const.READ_DISCRETE_INPUTS] with [1; 2].
  change [Const.READ_HOLDING_REGISTERS; Const.READ_INPUT_REGISTER] with [3; 4].
  change [Const.WRITE_SINGLE_COIL; Const.WRITE_SINGLE_REGISTER] with [5; 6].
  change [Const.WRITE_MULTIPLE_COILS; Const.WRITE_MULTIPLE_REGISTERS]
    with [15; 16].
  rewrite (mem_false fc [1; 2]) by (simpl in *; lia).
  rewrite (mem_false fc [3; 4]) by (simpl in *; lia).
  rewrite (mem_false fc [5; 6]) by (simpl in *; lia).
  now rewrite (mem_true _ _ Hfc).
Qed.

Lemma pack_BHBB (c a d0 d1 : Z) :
  is_byte c -> is_u16 a -> is_byte d0 -> is_byte d1 ->
  struct.pack ">BHBB" [c; a; d0; d1] = Ok [c; a / 256; a mod 256; d0; d1].
Proof.
  intros Hc Ha H0 H1. unfold struct.pack.
  change (struct.parse ">BHBB")
    with (Some [struct.B; struct.H; struct.B; struct.B]).
  cbn [struct.pack_all].
  now rewrite (pack_B c Hc), (pack_H a Ha), (pack_B d0 H0), (pack_B d1 H1).
Qed.

(** X3: for the single writes (5, 6) [response] needs exactly two data
    bytes: with two bytes and a 16-bit address the PDU is the function
    code, the address and those two bytes; with any other number of data
    items [struct.pack] raises, so a longer payload is not cut to its
    first two bytes. *)
Theorem response_single_write (fc a q : Z) (d : list Z)
  (vl : option (list Z)) (sg : signed_arg) (Hfc : In fc [5; 6]) :
  (forall d0 d1 : Z,
     d = [d0; d1] -> is_u16 a -> is_byte d0 -> is_byte d1 ->
     response fc a q d vl sg = Ok (Some [fc; a / 256; a mod 256; d0; d1])) /\
  (List.length d <> 2%nat -> response fc a q d vl sg = Raise StructError).
Proof.
  rewrite (response_single fc a q d vl sg Hfc). split.
  - intros d0 d1 -> Ha H0 H1. cbn [app].
    rewrite pack_BHBB; auto. unfold is_byte. simpl in Hfc. lia.
  - intros Hlen. unfold struct.pack.
    change (struct.parse ">BHBB")
      with (Some [struct.B; struct.H; struct.B; struct.B]).
    cbv beta iota. rewrite pack_all_length_mismatch; [reflexivity|].
    rewrite length_app. simpl. lia.
Qed.

Lemma response_single_write_witness :
  response 5 7 0 [255; 0; 0] None (Uniform true) = Raise StructError.
Proof.
  apply (proj2 (response_single_write 5 7 0 [255; 0; 0] None (Uniform true)
                  ltac:(simpl; lia))).
  simpl. lia.
Defined.

(** X2: the acknowledgement of a single write is the request itself:
    [response], given the request's address and its two value bytes,
    returns the PDU that [write_single_register] or [write_single_coil]
    built. *)
Theorem single_write_response_echoes (a q : Z) (vl : option (list Z))
  (sg : signed_arg) (pdu : bytes) :
  (forall (v : Z) (s : bool),
     write_single_register a v s = Ok pdu ->
     response 6 a q (skipn 3 pdu) vl sg = Ok (Some pdu)) /\
  (forall v : pyval,
     write_single_coil a v = Ok pdu ->
     response 5 a q (skipn 3 pdu) vl sg = Ok (Some pdu)).
Proof.
  split.
  - intros v s Hok.
    destruct (write_single_register_ok_inv a v s pdu Hok) as (Ha & Hv & ->).
    rewrite response_single by (simpl; lia). cbn [app skipn]. unfold be16.
    rewrite pack_BHBB; auto; unfold is_byte;
      try apply Z.mod_pos_bound; lia.
  - intros v Hok.
    destruct (write_single_coil_ok_pdu a v pdu Hok) as [Ha [[_ ->]|[_ ->]]];
      rewrite response_single by (simpl; lia); cbn [app skipn];
      rewrite pack_BHBB; auto; unfold is_byte; lia.
Qed.

Lemma single_write_response_echoes_witness :
  response 6 1 0 [255; 254] None (Uniform true) = Ok (Some [6; 0; 1; 255; 254]).
Proof.
  exact (proj1 (single_write_response_echoes 1 0 None (Uniform true)
                  [6; 0; 1; 255; 254]) (-2) true eq_refl).
Defined.

Lemma pack_BHH_prefix (fmt : string) (cs : list struct.code) (c a q : Z)
  (args : list Z) (pdu : bytes) :
  struct.parse fmt = Some (struct.B :: struct.H :: struct.H :: cs) ->
  struct.pack fmt (c :: a :: q :: args) = Ok pdu ->
  struct.pack ">BHH" [c; a; q] = Ok (firstn 5 pdu).
Proof.
  intros Hfmt Hpack. unfold struct.pack in Hpack. rewrite Hfmt in Hpack.
  destruct (pack_all_cons_inv _ _ _ _ _ Hpack) as [Hc [r1 [Hr1 ->]]].
  destruct (pack_all_cons_inv _ _ _ _ _ Hr1) as [Ha [r2 [Hr2 ->]]].
  destruct (pack_all_cons_inv _ _ _ _ _ Hr2) as [Hq [r3 [_ ->]]].
  unfold struct.pack.
  change (struct.parse ">BHH") with (Some [struct.B; struct.H; struct.H]).
  cbn [struct.pack_all]. rewrite !pack_one_ok by assumption.
  cbn [struct.size bind]. rewrite be_bytes_1, !be_bytes_2. reflexivity.
Qed.

Lemma bulk_request_header (a : Z) (vs : list Z) (pdu : bytes) :
  (write_multiple_coils a vs = Ok pdu ->
   struct.pack ">BHH" [15; a; len vs] = Ok (firstn 5 pdu)) /\
  (forall s : bool,
     write_multiple_registers a vs s = Ok pdu ->
     struct.pack ">BHH" [16; a; len vs] = Ok (firstn 5 pdu)).
Proof.
  split.
  - intros Hok.
    destruct (write_multiple_coils_ok_inv a vs pdu Hok) as [_ Hpack].
    exact (pack_BHH_prefix _ _ _ _ _ _ _
             (parse_bulk_fmt "B" struct.B _ eq_refl) Hpack).
  - intros s Hok.
    destruct (write_multiple_registers_ok_inv a vs s pdu Hok) as [_ Hpack].
    assert (Hfmt : struct.parse_codes (if s then "h" else "H")
                   = Some [code16 s]) by now destruct s.
    exact (pack_BHH_prefix _ _ _ _ _ _ _ (parse_bulk_fmt _ _ _ Hfmt) Hpack).
Qed.

(** X4: the acknowledgement of a bulk write is the head of the request:
    [response], given the request's address and its number of values,
    returns the first five bytes of the PDU that [write_multiple_coils] or
    [write_multiple_registers] built, without the written data. *)
Theorem bulk_write_response_is_header (a : Z) (vs d : list Z)
  (vl : option (list Z)) (sg : signed_arg) (pdu : bytes) :
  (write_multiple_coils a vs = Ok pdu ->
   response 15 a (len vs) d vl sg = Ok (Some (firstn 5 pdu))) /\
  (forall s : bool,
     write_multiple_registers a vs s = Ok pdu ->
     response 16 a (len vs) d vl sg = Ok (Some (firstn 5 pdu))).
Proof.
  destruct (bulk_request_header a vs pdu) as [Hcoils Hregs]. split.
  - intros Hok. rewrite response_bulk by (simpl; lia).
    now rewrite (Hcoils Hok).
  - intros s Hok. rewrite response_bulk by (simpl; lia).
    now rewrite (Hregs s Hok).
Qed.

Lemma bulk_write_response_is_header_witness :
  response 15 7 9 [] None (Uniform true) = Ok (Some [15; 0; 7; 0; 9]).
Proof.
  exact (proj1 (bulk_write_response_is_header 7 [1; 0; 1; 1; 0; 0; 0; 1; 1]
                  [] None (Uniform true) [15; 0; 7; 0; 9; 2; 177; 1])
           eq_refl).
Defined.

(** X12: the head of a successful bulk write request, without its function
    code, is an acknowledgement that [validate_resp_data] accepts for the
    request's address and number of values, under either signed flag. *)
Theorem bulk_write_ack_validates (a : Z) (vs : list Z) (value : option Z)
  (signed : bool) (pdu : bytes) :
  (write_multiple_coils a vs = Ok pdu ->
   validate_resp_data (tl (firstn 5 pdu)) 15 a value (Some (len vs)) signed
     = Ok true) /\
  (forall s : bool,
     write_multiple_registers a vs s = Ok pdu ->
     validate_resp_data (tl (firstn 5 pdu)) 16 a value (Some (len vs)) signed
       = Ok true).
Proof.
  assert (Hack : forall fc n, In fc [15; 16] -> 1 <= n <= 1968 ->
            struct.pack ">BHH" [fc; a; n] = Ok (firstn 5 pdu) ->
            validate_resp_data (tl (firstn 5 pdu)) fc a value (Some n) signed
              = Ok true).
  { intros fc n Hfc Hn Hpack.
    destruct (pack_BHH_inv fc a n _ Hpack) as (_ & Ha & _ & ->).
    cbn [tl]. rewrite validate_resp_data_4.
    rewrite (mem_false fc [5; 6]) by (simpl in *; lia).
    rewrite (mem_true _ _ Hfc).
    unfold resp_address. rewrite be16_div_mod, Z.eqb_refl.
    replace (resp_field signed (n / 256) (n mod 256)) with n.
    - cbn [opt_eq andb]. now rewrite Z.eqb_refl.
    - unfold resp_field. rewrite be16_div_mod.
      rewrite (proj2 (Z.leb_gt _ _)) by lia. now rewrite andb_false_r. }
  destruct (bulk_request_header a vs pdu) as [Hcoils Hregs]. split.
  - intros Hok. apply Hack; [simpl; lia | | now apply Hcoils].
    now destruct (write_multiple_coils_ok_inv a vs pdu Hok).
  - intros s Hok. apply Hack; [simpl; lia | | now apply (Hregs s)].
    destruct (write_multiple_registers_ok_inv a vs s pdu Hok). lia.
Qed.

Lemma bulk_write_ack_validates_witness :
  validate_resp_data [0; 7; 0; 2] 16 7 None (Some 2) true = Ok true.
Proof.
  exact (proj2 (bulk_write_ack_validates 7 [1; -1] None true
                  [16; 0; 7; 0; 2; 4; 0; 1; 255; 255]) true eq_refl).
Defined.

(** ** The read branches of [response] *)

Lemma parse_codes_flags (flags : list bool) :
  forall (acc : string) (ks : list struct.code),
    struct.parse_codes acc = Some ks ->
    struct.parse_codes
      (fold_left (fun fmt (s : bool) =>
                    String.append fmt (if s then "h" else "H")) flags acc) =
      Some (ks ++ map code16 flags).
Proof.
  induction flags as [|s flags IH]; intros acc ks Hacc; cbn [fold_left map].
  - now rewrite app_nil_r.
  - rewrite (IH _ (ks ++ [code16 s])).
    + now rewrite <- app_assoc.
    + rewrite parse_codes_app, Hacc. now destruct s.
Qed.

Lemma parse_response_fmt (signed : signed_arg) (n : nat) :
  struct.parse
    (String.append ">BB"
       match signed with
       | Uniform s => str_mul (if s then "h" else "H") n
       | PerElement flags =>
           fold_left (fun fmt (s : bool) =>
                        String.append fmt (if s then "h" else "H")) flags ""
       end) =
    Some ([struct.B; struct.B] ++ map code16 (signed_flags signed n)).
Proof.
  apply (parse_app ">BB" _ [struct.B; struct.B]); [reflexivity|].
  destruct signed as [s|flags]; cbn [signed_flags].
  - rewrite map_repeat. apply parse_codes_mul. now destruct s.
  - now rewrite (parse_codes_flags flags "" [] eq_refl).
Qed.

Lemma pack_all_flags (flags : list bool) (vs : list Z) :
  Forall2 fits16 flags vs ->
  struct.pack_all (map code16 flags) vs = Ok (flat_map be16 vs).
Proof.
  induction 1 as [|s v flags vs Hv Hrest IH]; [reflexivity|].
  cbn [map struct.pack_all flat_map].
  rewrite pack_one_ok by (destruct s; simpl in *; lia).
  replace (struct.size (code16 s)) with 2%nat by now destruct s.
  rewrite be_bytes_2, IH. reflexivity.
Qed.

Lemma response_registers (fc a q : Z) (d vs : list Z) (sg : signed_arg) :
  In fc [3; 4] ->
  response fc a q d (Some vs) sg =
    if negb ((1 <=? len vs) && (len vs <=? 125))
    then Raise (ValueError "invalid number of registers")
    else
      pdu <- struct.pack
               (String.append ">BB"
                  match sg with
                  | Uniform s => str_mul (if s then "h" else "H")
                                         (List.length vs)
                  | PerElement flags =>
                      fold_left (fun fmt (s : bool) =>
                                   String.append fmt (if s then "h" else "H"))
                                flags ""
                  end)
               ([fc; len vs * 2] ++ vs) ;;
      Ok (Some pdu).
Proof.
  intros Hfc. unfold response.
  change [Const.READ_COILS; Const.READ_DISCRETE_INPUTS] with [1; 2].
  change [Const.READ_HOLDING_REGISTERS; Const.READ_INPUT_REGISTER] with [3; 4].
  rewrite (mem_false fc [1; 2]) by (simpl in *; lia).
  now rewrite (mem_true _ _ Hfc).
Qed.

(** X1: for the register reads (3, 4) [response] rejects any number of
    values outside 1..125, the empty list included, with the ValueError
    'invalid number of registers'; inside the range, when every value fits
    the 16-bit range of its flag (one flag for all, or one per value), the
    PDU is the function code, the byte count 2n and the values, two
    big-endian bytes each; flags that are not as many as the values make
    [struct.pack] raise; a missing value list raises [TypeError]. *)
Theorem response_read_registers (fc a q : Z) (d vs : list Z)
  (sg : signed_arg) (Hfc : In fc [3; 4]) :
  (~ (1 <= len vs <= 125) ->
   response fc a q d (Some vs) sg =
     Raise (ValueError "invalid number of registers")) /\
  (1 <= len vs <= 125 ->
   Forall2 fits16 (signed_flags sg (List.length vs)) vs ->
   response fc a q d (Some vs) sg =
     Ok (Some ([fc; 2 * len vs] ++ flat_map be16 vs))) /\
  (1 <= len vs <= 125 ->
   List.length (signed_flags sg (List.length vs)) <> List.length vs ->
   response fc a q d (Some vs) sg = Raise StructError) /\
  response fc a q d None sg = Raise TypeError.
Proof.
  split; [|split; [|split]].
  - intros Hn. rewrite (response_registers fc a q d vs sg Hfc).
    destruct (1 <=? len vs) eqn:H1; [|reflexivity].
    destruct (len vs <=? 125) eqn:H2; [|reflexivity].
    apply Z.leb_le in H1. apply Z.leb_le in H2. lia.
  - intros Hn Hfits. rewrite (response_registers fc a q d vs sg Hfc).
    rewrite (proj2 (Z.leb_le 1 _)), (proj2 (Z.leb_le _ 125)) by lia.
    cbn [andb negb]. unfold struct.pack. rewrite parse_response_fmt.
    assert (Hhead : struct.pack_all [struct.B; struct.B] [fc; len vs * 2] =
                    Ok [fc; len vs * 2]).
    { cbn [struct.pack_all].
      rewrite pack_B by (unfold is_byte; simpl in Hfc; lia).
      rewrite pack_B by (unfold is_byte; lia). reflexivity. }
    rewrite (pack_all_app _ _ _ _ _ Hhead), (pack_all_flags _ _ Hfits).
    cbn [bind]. now rewrite (Z.mul_comm 2).
  - intros Hn Hlen. rewrite (response_registers fc a q d vs sg Hfc).
    rewrite (proj2 (Z.leb_le 1 _)), (proj2 (Z.leb_le _ 125)) by lia.
    cbn [andb negb]. unfold struct.pack. rewrite parse_response_fmt.
    rewrite pack_all_length_mismatch; [reflexivity|].
    rewrite !length_app, length_map. simpl. lia.
  - unfold response.
    change [Const.READ_COILS; Const.READ_DISCRETE_INPUTS] with [1; 2].
    change [Const.READ_HOLDING_REGISTERS; Const.READ_INPUT_REGISTER]
      with [3; 4].
    rewrite (mem_false fc [1; 2]) by (simpl in *; lia).
    now rewrite (mem_true _ _ Hfc).
Qed.

Lemma response_read_registers_witness :
  response 3 0 0 [] (Some [-1; 65535]) (PerElement [true; false]) =
    Ok (Some [3; 4; 255; 255; 255; 255]) /\
  response 3 0 0 [] (Some [1; 2]) (PerElement [true]) = Raise StructError /\
  response 4 0 0 [] (Some []) (Uniform true) =
    Raise (ValueError "invalid number of registers").
Proof.
  split; [|split].
  - apply (proj1 (proj2 (response_read_registers 3 0 0 [] [-1; 65535]
                           (PerElement [true; false]) ltac:(simpl; lia)))).
    + unfold len. simpl. lia.
    + repeat constructor; simpl; lia.
  - apply (proj1 (proj2 (proj2 (response_read_registers 3 0 0 [] [1; 2]
                                  (PerElement [true]) ltac:(simpl; lia))))).
    + unfold len. simpl. lia.
    + simpl. lia.
  - apply (proj1 (response_read_registers 4 0 0 [] [] (Uniform true)
                    ltac:(simpl; lia))).
    unfold len. simpl. lia.
Defined.

(** X5: for the bit reads (1, 2) [response] has no quantity check: an
    empty list gives the PDU function code, 0; more than 2040 values make
    the byte count overflow its byte, so that [struct.pack] raises; a
    missing value list raises [TypeError]. *)
Theorem response_read_bits_edges (fc a q : Z) (d : list Z) (sg : signed_arg)
  (Hfc : In fc [1; 2]) :
  response fc a q d (Some []) sg = Ok (Some [fc; 0]) /\
  (forall vs : list Z, 2040 < len vs ->
     response fc a q d (Some vs) sg = Raise StructError) /\
  response fc a q d None sg = Raise TypeError.
Proof.
  split; [|split].
  - now rewrite (response_read_coils fc a q d [] sg Hfc (Forall_nil _)).
  - intros vs Hn. unfold response.
    change [Const.READ_COILS; Const.READ_DISCRETE_INPUTS] with [1; 2].
    rewrite (mem_true _ _ Hfc). cbn [len_opt bind app].
    destruct (struct.pack _ _) as [pdu|e] eqn:Hpack; cbn [bind].
    + exfalso. unfold struct.pack in Hpack.
      rewrite (parse_app ">BB" _ [struct.B; struct.B]
                 (repeat struct.B (List.length (pack_coil_bits vs))))
        in Hpack by (reflexivity || now apply parse_codes_mul).
      apply pack_all_ranges in Hpack.
      inversion Hpack as [|? ? ? ? _ Hp1]. subst.
      inversion Hp1 as [|? ? ? ? Hcount _]. subst.
      simpl in Hcount. unfold len in *. lia_div.
    + now rewrite (pack_error _ _ _ Hpack).
  - unfold response.
    change [Const.READ_COILS; Const.READ_DISCRETE_INPUTS] with [1; 2].
    now rewrite (mem_true _ _ Hfc).
Qed.

Lemma response_read_bits_edges_witness :
  response 2 0 0 [] (Some []) (Uniform true) = Ok (Some [2; 0]).
Proof.
  exact (proj1 (response_read_bits_edges 2 0 0 [] (Uniform true)
                  ltac:(simpl; lia))).
Defined.

(** ** The exception encoder *)

(** X15: [exception_response] returns a PDU exactly when the function code
    is in -128..127 and the exception code is a byte; the PDU is then the
    two bytes 128 + function code, exception code.  A function code that
    already carries the error bias (128..255) makes [struct.pack] raise. *)
Theorem exception_response_success (fc ec : Z) :
  ((exists pdu, exception_response fc ec = Ok pdu) <->
   (-128 <= fc <= 127 /\ is_byte ec)) /\
  (forall pdu, exception_response fc ec = Ok pdu -> pdu = [128 + fc; ec]) /\
  (~ (-128 <= fc <= 127 /\ is_byte ec) ->
   exception_response fc ec = Raise StructError).
Proof.
  assert (Hok : -128 <= fc <= 127 -> is_byte ec ->
                exception_response fc ec = Ok [128 + fc; ec]).
  { intros Hf He. unfold exception_response, struct.pack.
    change (struct.parse ">BB") with (Some [struct.B; struct.B]).
    cbn [struct.pack_all].
    rewrite (pack_B ec He).
    rewrite pack_B by (unfold is_byte, Const.ERROR_BIAS; lia).
    reflexivity. }
  assert (Hinv : forall pdu, exception_response fc ec = Ok pdu ->
                 -128 <= fc <= 127 /\ is_byte ec).
  { intros pdu Hp. unfold exception_response, struct.pack in Hp.
    change (struct.parse ">BB") with (Some [struct.B; struct.B]) in Hp.
    apply pack_all_ranges in Hp.
    apply Forall2_cons_iff in Hp. destruct Hp as [Hf Hp].
    apply Forall2_cons_iff in Hp. destruct Hp as [He _].
    unfold Const.ERROR_BIAS in Hf. cbn [struct.lo struct.hi] in Hf, He.
    unfold is_byte. lia. }
  split; [split|split].
  - intros [pdu Hp]. now apply (Hinv pdu).
  - intros [Hf He]. eexists. now apply Hok.
  - intros pdu Hp. destruct (Hinv pdu Hp) as [Hf He].
    rewrite (Hok Hf He) in Hp. now injection Hp as <-.
  - intros Hbad.
    destruct (exception_response fc ec) as [pdu|e] eqn:Hres.
    + exfalso. apply Hbad. now apply (Hinv pdu).
    + f_equal. unfold exception_response in Hres.
      now apply pack_error in Hres.
Qed.

Lemma exception_response_success_witness :
  exception_response 0x83 2 = Raise StructError.
Proof.
  apply (proj2 (proj2 (exception_response_success 0x83 2))).
  intros [Hfc _]. lia.
Defined.

(** ** Reading packed coil bits back *)

Lemma pack_coil_bits_read_back (bits : list Z) (i : nat) :
  Forall is_bit bits -> (i < List.length bits)%nat ->
  Z.testbit (nth (i / 8) (pack_coil_bits bits) 0)
    (Z.of_nat (Nat.min 8 (List.length bits - 8 * (i / 8)) - 1 - i mod 8)) =
  Z.odd (nth i bits 0).
Proof.
  intros Hbits Hi.
  assert (Hj : (i / 8 < List.length (pack_coil_bits bits))%nat)
    by (rewrite pack_coil_bits_length; lia_div).
  rewrite (pack_coil_bits_nth bits _ Hj).
  rewrite (fold_bits_testbit _ _ (group_bits bits (i / 8) Hbits)).
  rewrite group_length.
  rewrite (proj2 (Nat.ltb_lt _ _)) by lia_div.
  replace (Nat.min 8 (List.length bits - 8 * (i / 8)) - 1 -
           (Nat.min 8 (List.length bits - 8 * (i / 8)) - 1 - i mod 8))%nat
    with (i mod 8)%nat by lia_div.
  rewrite group_nth by lia_div.
  f_equal. f_equal. lia_div.
Qed.

Lemma is_bit_odd_inj (x y : Z) :
  is_bit x -> is_bit y -> Z.odd x = Z.odd y -> x = y.
Proof. intros [-> | ->] [-> | ->]; simpl; congruence. Qed.

(** X13: packing loses no coil: coil [i] of [n] bit values can be read
    back from byte [i / 8] of the packed bytes, at bit position
    [min 8 (n - 8 (i / 8)) - 1 - i mod 8]; so two sequences of bit values
    of the same length with the same packed bytes are equal. *)
Theorem pack_coil_bits_injective (bits1 bits2 : list Z)
  (Hbits1 : Forall is_bit bits1) (Hbits2 : Forall is_bit bits2)
  (Hlen : List.length bits1 = List.length bits2) :
  (forall i : nat, (i < List.length bits1)%nat ->
     Z.testbit (nth (i / 8) (pack_coil_bits bits1) 0)
       (Z.of_nat (Nat.min 8 (List.length bits1 - 8 * (i / 8)) - 1 - i mod 8))
     = Z.odd (nth i bits1 0)) /\
  (pack_coil_bits bits1 = pack_coil_bits bits2 -> bits1 = bits2).
Proof.
  split.
  - intros i Hi. now apply pack_coil_bits_read_back.
  - intros Hpack. apply (nth_ext bits1 bits2 0 0 Hlen). intros i Hi.
    apply is_bit_odd_inj.
    + now apply Forall_nth.
    + apply Forall_nth; [assumption | lia].
    + rewrite <- (pack_coil_bits_read_back bits1 i Hbits1 Hi).
      rewrite <- (pack_coil_bits_read_back bits2 i Hbits2) by lia.
      now rewrite Hpack, Hlen.
Qed.

Lemma pack_coil_bits_injective_witness :
  Z.testbit (nth 1 (pack_coil_bits [1; 0; 1; 1; 0; 0; 0; 1; 1; 0; 1]) 0) 0
    = true.
Proof.
  assert (Hbits : Forall is_bit [1; 0; 1; 1; 0; 0; 0; 1; 1; 0; 1])
    by (repeat constructor; unfold is_bit; lia).
  exact (proj1 (pack_coil_bits_injective _ _ Hbits Hbits eq_refl) 10%nat
           ltac:(simpl; lia)).
Defined.

Lemma pack_coil_bits_step (l : list Z) :
  l <> [] ->
  pack_coil_bits l = fold_bits (firstn 8 l) :: pack_coil_bits (skipn 8 l).
Proof.
  intros Hl. unfold pack_coil_bits. rewrite !sectioned_list_eq.
  rewrite length_skipn.
  assert (Hn : (1 <= List.length l)%nat)
    by (destruct l; [contradiction | simpl; lia]).
  replace ((List.length l + 7) / 8)%nat
    with (S ((List.length l - 8 + 7) / 8)) by lia_div.
  cbn [seq map]. f_equal.
  rewrite <- seq_shift, !map_map. apply map_ext. intros k.
  rewrite skipn_skipn. do 3 f_equal. lia.
Qed.

Lemma pack_coil_bits_app_groups (m : nat) :
  forall l1 l2 : list Z,
    List.length l1 = (8 * m)%nat ->
    pack_coil_bits (l1 ++ l2) = pack_coil_bits l1 ++ pack_coil_bits l2.
Proof.
  induction m as [|m IH]; intros l1 l2 Hlen.
  - destruct l1; [reflexivity | discriminate Hlen].
  - assert (Hne : l1 <> []) by (intros ->; discriminate Hlen).
    assert (Hne' : l1 ++ l2 <> [])
      by (destruct l1; [contradiction | discriminate]).
    rewrite (pack_coil_bits_step _ Hne'), (pack_coil_bits_step _ Hne).
    rewrite firstn_app, skipn_app.
    replace (8 - List.length l1)%nat with 0%nat by lia.
    change (firstn 0 l2) with (@nil Z). change (skipn 0 l2) with l2.
    rewrite app_nil_r.
    rewrite (IH (skipn 8 l1) l2) by (rewrite length_skipn; lia).
    reflexivity.
Qed.

(** X14: packing works byte by byte: when the first part holds a multiple
    of 8 values, packing a concatenation is the concatenation of the
    packings, so the values after a full group never change the bytes
    before them. *)
Theorem pack_coil_bits_app (l1 l2 : list Z)
  (Hlen : (List.length l1 mod 8 = 0)%nat) :
  pack_coil_bits (l1 ++ l2) = pack_coil_bits l1 ++ pack_coil_bits l2.
Proof.
  apply (pack_coil_bits_app_groups (List.length l1 / 8)). lia_div.
Qed.

Lemma pack_coil_bits_app_witness :
  pack_coil_bits ([1; 0; 1; 1; 0; 0; 0; 1] ++ [1; 0; 1]) = [177] ++ [5].
Proof.
  exact (pack_coil_bits_app [1; 0; 1; 1; 0; 0; 0; 1] [1; 0; 1] eq_refl).
Defined.

(** ** Binary digit strings *)

Lemma size_nat_upper (p : positive) :
  Z.pos p < 2 ^ Z.of_nat (Pos.size_nat p).
Proof.
  induction p as [q IH|q IH|]; cbn [Pos.size_nat];
    rewrite ?Nat2Z.inj_succ, ?Z.pow_succ_r by lia;
    [change (Z.pos q~1) with (2 * Z.pos q + 1)
    | change (Z.pos q~0) with (2 * Z.pos q) | simpl]; lia.
Qed.

(** X16: for a positive [num], [int_to_bin] gives the binary digits of
    [num] with no leading zero and no fixed width: reading the digits in
    base 2 gives [num] back, and the number [k] of digits is the one with
    2^(k-1) <= num < 2^k.  For a negative number it gives a minus sign
    followed by the digits of the absolute value. *)
Theorem int_to_bin_digits (num : Z) (Hpos : 0 < num) :
  int_base2 (int_to_bin num) 0 = Some num /\
  (let k := Z.of_nat (String.length (int_to_bin num)) in
   2 ^ (k - 1) <= num < 2 ^ k) /\
  int_to_bin (- num) = String "-" (int_to_bin num).
Proof.
  destruct num as [|p|p]; try lia. cbn [int_to_bin Z.opp].
  split; [|split; [|reflexivity]].
  - now rewrite int_base2_bin_pos.
  - cbv zeta. rewrite bin_pos_length. cbn [String.length].
    rewrite Nat.add_0_r.
    pose proof (size_nat_pow p) as Hlow. pose proof (size_nat_upper p) as Hup.
    split; [|exact Hup].
    assert (Hk : (1 <= Pos.size_nat p)%nat) by (destruct p; simpl; lia).
    replace (Z.of_nat (Pos.size_nat p))
      with (Z.succ (Z.of_nat (Pos.size_nat p) - 1)) in Hlow by lia.
    rewrite Z.pow_succ_r in Hlow by lia. lia.
Qed.

Lemma int_to_bin_digits_witness :
  int_to_bin 5 = "101" /\ int_to_bin (-5) = "-101" /\
  int_base2 (int_to_bin 5) 0 = Some 5.
Proof.
  destruct (int_to_bin_digits 5 ltac:(lia)) as (Hread & _ & Hneg).
  split; [reflexivity|]. split; [exact Hneg | exact Hread].
Defined.

Lemma be_bytes_4_be_int (b0 b1 b2 b3 : Z) :
  is_byte b0 -> is_byte b1 -> is_byte b2 -> is_byte b3 ->
  let n := ((b0 * 256 + b1) * 256 + b2) * 256 + b3 in
  0 <= n < 2 ^ 32 /\ struct.be_bytes 4 n = [b0; b1; b2; b3].
Proof.
  unfold is_byte. cbv zeta. intros H0 H1 H2 H3.
  change (2 ^ 32) with 4294967296. split; [lia|].
  unfold struct.be_bytes.
  change (256 ^ Z.of_nat 3) with 16777216.
  change (256 ^ Z.of_nat 2) with 65536.
  change (256 ^ Z.of_nat 1) with 256.
  change (256 ^ Z.of_nat 0) with 1.
  repeat f_equal; Z.div_mod_to_equations; lia.
Qed.

(** X17: the digit-string stage of [float_to_bin] and [bin_to_float]: the
    four bytes that [float_to_bin] reads as an unsigned integer always
    become a string of exactly 32 binary digits, and [bin_to_float] packs
    that string back into the same four bytes, which it then hands to
    [struct.unpack('!f', ...)]. *)
Theorem float_bit_string_stage (b0 b1 b2 b3 : Z)
  (H0 : is_byte b0) (H1 : is_byte b1) (H2 : is_byte b2) (H3 : is_byte b3) :
  exists n : Z,
    struct.unpack "!I" [b0; b1; b2; b3] = Ok [n] /\
    String.length (u32_to_bin n) = 32%nat /\
    bin_to_u32 (u32_to_bin n) = Ok [b0; b1; b2; b3].
Proof.
  destruct (be_bytes_4_be_int b0 b1 b2 b3 H0 H1 H2 H3) as [Hn Hbytes].
  exists (((b0 * 256 + b1) * 256 + b2) * 256 + b3). split; [|split].
  - unfold struct.unpack. change (struct.parse "!I") with (Some [struct.I]).
    cbv [struct.calcsize fold_right struct.size Nat.add List.length Nat.eqb
         struct.unpack_all firstn skipn struct.decode struct.is_signed andb
         struct.be_int fold_left].
    f_equal; f_equal; ring.
  - now apply u32_to_bin_length.
  - rewrite bin_to_u32_u32_to_bin by assumption. now rewrite Hbytes.
Qed.

Lemma float_bit_string_stage_witness :
  exists n : Z,
    struct.unpack "!I" [63; 192; 0; 0] = Ok [n] /\
    String.length (u32_to_bin n) = 32%nat /\
    bin_to_u32 (u32_to_bin n) = Ok [63; 192; 0; 0].
Proof.
  apply (float_bit_string_stage 63 192 0 0); unfold is_byte; lia.
Defined.

(** ** The float conversions *)

Lemma digits2_pos_bounds (p : positive) :
  2 ^ (Z.pos (digits2_pos p) - 1) <= Z.pos p < 2 ^ Z.pos (digits2_pos p).
Proof.
  induction p as [q IH|q IH|]; cbn [digits2_pos].
  - rewrite Pos2Z.inj_succ.
    replace (Z.succ (Z.pos (digits2_pos q)) - 1)
      with (Z.succ (Z.pos (digits2_pos q) - 1)) by lia.
    rewrite !Z.pow_succ_r by lia.
    change (Z.pos q~1) with (2 * Z.pos q + 1). lia.
  - rewrite Pos2Z.inj_succ.
    replace (Z.succ (Z.pos (digits2_pos q)) - 1)
      with (Z.succ (Z.pos (digits2_pos q) - 1)) by lia.
    rewrite !Z.pow_succ_r by lia.
    change (Z.pos q~0) with (2 * Z.pos q). lia.
  - change (2 ^ (1 - 1)) with 1. change (2 ^ 1) with 2. lia.
Qed.

(** A finite binary32 datum is normal, with a 24-bit mantissa, or
    subnormal, with the smallest exponent. *)
Lemma is_binary32_finite (s : bool) (m : positive) (e : Z) :
  is_binary32 (S754_finite s m e) ->
  (8388608 <= Z.pos m < 16777216 /\ -149 <= e <= 104) \/
  (Z.pos m < 8388608 /\ e = -149).
Proof.
  unfold is_binary32, valid_binary, bounded, canonical_mantissa, fexp, emin.
  intros H. apply andb_true_iff in H. destruct H as [Hc He].
  apply Z.eqb_eq in Hc. apply Z.leb_le in He.
  pose proof (digits2_pos_bounds m) as Hd.
  set (d := Z.pos (digits2_pos m)) in *.
  assert (Hd1 : 1 <= d) by (unfold d; lia).
  destruct (Z.eq_dec d 24) as [H24|H24].
  - left. rewrite H24 in Hd.
    change (2 ^ (24 - 1)) with 8388608 in Hd.
    change (2 ^ 24) with 16777216 in Hd. lia.
  - right. assert (Hle : d <= 23) by lia.
    assert (Hpow : 2 ^ d <= 2 ^ 23) by (apply Z.pow_le_mono_r; lia).
    change (2 ^ 23) with 8388608 in Hpow. lia.
Qed.

Lemma bits_of_float32_range (x : spec_float) :
  is_binary32 x -> 0 <= bits_of_float32 x < 2 ^ 32.
Proof.
  intros Hx. change (2 ^ 32) with 4294967296.
  destruct x as [s|s| |s m e]; unfold bits_of_float32; cbv zeta beta;
    change (2 ^ 31) with 2147483648; change (2 ^ 23) with 8388608;
    change (2 ^ 22) with 4194304.
  - destruct s; lia.
  - destruct s; lia.
  - lia.
  - destruct (is_binary32_finite s m e Hx) as [[Hm He]|[Hm He]].
    + rewrite (proj2 (Z.ltb_ge _ _)) by lia. destruct s; lia.
    + rewrite (proj2 (Z.ltb_lt _ _)) by lia. destruct s; lia.
Qed.

(** Decoding the 32 bits of a binary32 datum gives the datum back. *)
Lemma float32_of_bits_of_float32 (x : spec_float) :
  is_binary32 x -> float32_of_bits (bits_of_float32 x) = x.
Proof.
  intros Hx.
  destruct x as [s|s| |s m e]; try (destruct s; reflexivity); [reflexivity|].
  unfold bits_of_float32, float32_of_bits; cbv zeta beta.
  change (2 ^ 31) with 2147483648. change (2 ^ 23) with 8388608.
  destruct (is_binary32_finite s m e Hx) as [[Hm He]|[Hm He]].
  - rewrite (proj2 (Z.ltb_ge _ _)) by lia.
    set (n := (if s then 2147483648 else 0) + (e + 150) * 8388608 +
              (Z.pos m - 8388608)).
    assert (Hexp : (n / 8388608) mod 256 = e + 150)
      by (unfold n; destruct s; Z.div_mod_to_equations; lia).
    assert (Hfrac : n mod 8388608 = Z.pos m - 8388608)
      by (unfold n; destruct s; Z.div_mod_to_equations; lia).
    assert (Hsign : (2147483648 <=? n) = s)
      by (unfold n; destruct s; [apply Z.leb_le | apply Z.leb_gt]; lia).
    rewrite Hexp, Hfrac, Hsign.
    rewrite (proj2 (Z.eqb_neq _ 0)), (proj2 (Z.eqb_neq _ 255)) by lia.
    replace (8388608 + (Z.pos m - 8388608)) with (Z.pos m) by lia.
    replace (e + 150 - 150) with e by lia.
    now rewrite Pos2Z.id.
  - rewrite (proj2 (Z.ltb_lt _ _)) by lia.
    set (n := (if s then 2147483648 else 0) + Z.pos m).
    assert (Hexp : (n / 8388608) mod 256 = 0)
      by (unfold n; destruct s; Z.div_mod_to_equations; lia).
    assert (Hfrac : n mod 8388608 = Z.pos m)
      by (unfold n; destruct s; Z.div_mod_to_equations; lia).
    assert (Hsign : (2147483648 <=? n) = s)
      by (unfold n; destruct s; [apply Z.leb_le | apply Z.leb_gt]; lia).
    rewrite Hexp, Hfrac, Hsign. cbn [Z.eqb].
    now rewrite Pos2Z.id, He.
Qed.

Lemma pack_I (n : Z) :
  0 <= n < 2 ^ 32 -> struct.pack "!I" [n] = Ok (struct.be_bytes 4 n).
Proof.
  intros Hn. unfold struct.pack. change (struct.parse "!I") with (Some [struct.I]).
  cbn [struct.pack_all].
  rewrite pack_one_ok by (change (2 ^ 32) with 4294967296 in Hn; simpl; lia).
  reflexivity.
Qed.

Lemma is_binary_string_append (s t : string) :
  is_binary_string (String.append s t) =
    is_binary_string s && is_binary_string t.
Proof.
  induction s as [|c s IH]; cbn [String.append is_binary_string];
    [reflexivity|].
  now rewrite IH, andb_assoc.
Qed.

Lemma is_binary_string_zeros (n : nat) :
  is_binary_string (str_mul "0" n) = true.
Proof. induction n as [|n IH]; [reflexivity | exact IH]. Qed.

Lemma is_binary_string_bin_pos (p : positive) :
  forall acc : string,
    is_binary_string acc = true -> is_binary_string (bin_pos p acc) = true.
Proof.
  induction p as [q IH|q IH|]; intros acc Hacc; cbn [bin_pos].
  - apply IH. cbn [is_binary_string]. now rewrite Hacc.
  - apply IH. cbn [is_binary_string]. now rewrite Hacc.
  - cbn [is_binary_string]. now rewrite Hacc.
Qed.

Lemma is_binary_string_u32_to_bin (n : Z) :
  0 <= n -> is_binary_string (u32_to_bin n) = true.
Proof.
  intros Hn. unfold u32_to_bin, zfill.
  rewrite is_binary_string_append, is_binary_string_zeros.
  destruct n as [|p|p]; [reflexivity | | lia].
  now apply is_binary_string_bin_pos.
Qed.

Lemma float_to_bin_ok (x : spec_float) :
  is_binary32 x -> float_to_bin x = Ok (u32_to_bin (bits_of_float32 x)).
Proof.
  intros Hx. unfold float_to_bin, pack_f. cbn [bind].
  rewrite (unpack_pack "!I" [bits_of_float32 x])
    by (apply pack_I; now apply bits_of_float32_range).
  reflexivity.
Qed.

Lemma bin_to_float_u32_to_bin (n : Z) :
  0 <= n < 2 ^ 32 -> bin_to_float (u32_to_bin n) = Ok (float32_of_bits n).
Proof.
  intros Hn. unfold bin_to_float.
  rewrite (bin_to_u32_u32_to_bin n Hn). cbn [bind]. unfold unpack_f.
  rewrite be_bytes_length, Nat.eqb_refl, be_int_be_bytes.
  change (256 ^ Z.of_nat 4) with (2 ^ 32). now rewrite Z.mod_small.
Qed.

(** C9 as stated fails at NaN, which a 32-bit float can hold: the round
    trip gives NaN back, and NaN does not compare equal to itself. *)
Lemma float_round_trip_nan_not_equal :
  ~ (forall x : spec_float, is_binary32 x ->
       exists (s : string) (y : spec_float),
         float_to_bin x = Ok s /\ String.length s = 32%nat /\
         bin_to_float s = Ok y /\ float_eq y x = true).
Proof.
  intros Hclaim.
  destruct (Hclaim S754_nan eq_refl) as (s & y & Hs & _ & Hy & Heq).
  rewrite (float_to_bin_ok S754_nan eq_refl) in Hs. injection Hs as <-.
  rewrite bin_to_float_u32_to_bin in Hy by (vm_compute; split; congruence).
  injection Hy as <-. discriminate Heq.
Qed.

(** C9, amended: for every float [x] that a 32-bit IEEE-754 float can hold,
    [float_to_bin] returns a string of exactly 32 binary digits and
    [bin_to_float] is its exact inverse: it gives [x] back, and the result
    compares equal to [x] unless [x] is NaN, which compares equal to
    nothing.  0.0, -0.0, 1.5, the smallest subnormal and the largest
    finite value are such floats. *)
Theorem float_to_bin_round_trip (x : spec_float) (Hx : is_binary32 x) :
  (exists (s : string) (y : spec_float),
     float_to_bin x = Ok s /\
     String.length s = 32%nat /\
     is_binary_string s = true /\
     bin_to_float s = Ok y /\
     y = x /\
     float_eq y x = negb (is_nan x)) /\
  Forall is_binary32
    [S754_zero false; S754_zero true; S754_finite false 12582912 (-23);
     S754_finite false 1 (-149); S754_finite false 16777215 104].
Proof.
  pose proof (bits_of_float32_range x Hx) as Hrange.
  split; [|repeat constructor].
  exists (u32_to_bin (bits_of_float32 x)), x.
  split; [now apply float_to_bin_ok|].
  split; [now apply u32_to_bin_length|].
  split; [apply is_binary_string_u32_to_bin; lia|].
  split.
  - rewrite (bin_to_float_u32_to_bin _ Hrange).
    now rewrite (float32_of_bits_of_float32 x Hx).
  - split; [reflexivity|].
    unfold float_eq, SFeqb.
    destruct x as [s|s| |s m e]; cbn [SFcompare is_nan negb];
      try reflexivity; destruct s; try reflexivity.
    + rewrite Z.compare_refl, Pos.compare_cont_refl. reflexivity.
    + rewrite Z.compare_refl, Pos.compare_cont_refl. reflexivity.
Qed.

Lemma float_to_bin_round_trip_witness :
  float_to_bin (S754_finite false 12582912 (-23)) =
    Ok "00111111110000000000000000000000" /\
  bin_to_float "00111111110000000000000000000000" =
    Ok (S754_finite false 12582912 (-23)).
Proof.
  destruct (float_to_bin_round_trip (S754_finite false 12582912 (-23))
              eq_refl) as [(s & y & Hs & _ & _ & Hy & Hyx & _) _].
  assert (Hstr : s = "00111111110000000000000000000000").
  { assert (H : Ok s = Ok "00111111110000000000000000000000")
      by (rewrite <- Hs; reflexivity).
    now injection H. }
  rewrite Hyx in Hy. rewrite <- Hstr. split; assumption.
Defined.
